(** * ghost60: page enhancements of [src/app.js] and [src/unnamed/part_000]

    A shallow embedding of the three routines run by [window.onload]
    ([load360ViewerScript], [setupIntersectionObserver], [setupParallax]) over
    an explicit model of the browser state they touch: the element tree, the
    per-element records, the observer's target list, the animation-frame
    queue and the ordered trace of writes.  JavaScript numbers are the
    kernel's binary64 floats. *)

From Stdlib Require Import ZArith Floats Ascii String DecimalString Uint63.
From stdpp Require Import gmap strings list.

Local Open Scope string_scope.
Set Warnings "-register-all,-inexact-float".

(** ** JavaScript numbers and strings *)

Module JS.

(** [Math.max(...args)] of ECMA-262: the running maximum starts at -Infinity,
    a NaN argument makes the result NaN, and +0 is larger than -0. *)
Definition is_pos_zero (x : float) : bool :=
  match PrimFloat.classify x with PZero => true | _ => false end.

Definition is_neg_zero (x : float) : bool :=
  match PrimFloat.classify x with NZero => true | _ => false end.

Fixpoint max_loop (highest : float) (args : list float) : float :=
  match args with
  | [] => highest
  | number :: rest =>
      if PrimFloat.is_nan number then PrimFloat.nan
      else if is_pos_zero number && is_neg_zero highest then max_loop number rest
      else if PrimFloat.ltb highest number then max_loop number rest
      else max_loop highest rest
  end.

Definition Math_max (a b : float) : float :=
  max_loop PrimFloat.neg_infinity [a; b].

(** [Math.min(...args)]: dual, starting at +Infinity, -0 smaller than +0. *)
Fixpoint min_loop (lowest : float) (args : list float) : float :=
  match args with
  | [] => lowest
  | number :: rest =>
      if PrimFloat.is_nan number then PrimFloat.nan
      else if is_neg_zero number && is_pos_zero lowest then min_loop number rest
      else if PrimFloat.ltb number lowest then min_loop number rest
      else min_loop lowest rest
  end.

Definition Math_min (a b : float) : float :=
  min_loop PrimFloat.infinity [a; b].

(** [a !== b] on two numbers: IEEE inequality (NaN differs from itself, the
    two zeros are equal). *)
Definition strict_neq (a b : float) : bool := negb (PrimFloat.eqb a b).

(** A property read that may give [undefined], converted to a string as a
    template literal or [parseFloat] converts its argument. *)
Definition ToString (v : option string) : string :=
  match v with Some s => s | None => "undefined" end.

(** The mathematical value of a finite float [m * 2^e] when it is an integer. *)
Definition integer_value (m : positive) (e : Z) : option Z :=
  if (0 <=? e)%Z then Some (Z.pos m * 2 ^ e)%Z
  else if (Z.pos m mod 2 ^ (- e) =? 0)%Z then Some (Z.pos m / 2 ^ (- e))%Z
  else None.

Definition decimal (n : Z) : string :=
  NilZero.string_of_uint (N.to_uint (Z.to_N n)).

(** [Number::toString(x)] in radix 10.  NaN, the zeros (both print ["0"]),
    the infinities and the integers below 2^53 (printed digit by digit) are
    computed here; every other value prints its shortest round-trip digits,
    which the platform supplies as [shortest]. *)
Definition Number_toString (shortest : float -> string) (x : float) : string :=
  match Prim2SF x with
  | S754_nan => "NaN"
  | S754_zero _ => "0"
  | S754_infinity false => "Infinity"
  | S754_infinity true => "-Infinity"
  | S754_finite s m e =>
      match integer_value m e with
      | Some n =>
          if (n <? 2 ^ 53)%Z then (if s then "-" else "") ++ decimal n
          else shortest x
      | None => shortest x
      end
  end.

End JS.

(** ** The document *)

(** Elements are named by a node identity; two references alias exactly when
    they hold the same identity. *)
Definition node := nat.

(** The element tree (parent/child structure only). *)
Inductive tree := Node (id : node) (kids : list tree).

(** What the scripts read or write of one element.  [innerHTML],
    [style_transition] and [style_transform] hold the text last assigned to
    [el.innerHTML], [el.style.transition] and [el.style.transform] ([None]
    while nothing was assigned).  They record the assignment, not what a
    later read returns: the content read back is [innerHTML_get] below, and
    whether a style value is one the platform accepts is not modelled. *)
Record element := Element {
  localName : string;
  classList : list string;
  attributes : gmap string string;
  innerHTML : option string;
  style_transition : option string;
  style_transform : option string
}.

(** The selectors the scripts use: ['section'], ['.gw-pano'] and
    ['[data-parallax]'] are a type, a class and an attribute-presence
    selector. *)
Inductive selector :=
| TypeSel (name : string)
| ClassSel (class : string)
| HasAttrSel (attr : string).

Definition matches (sel : selector) (e : element) : bool :=
  match sel with
  | TypeSel name => bool_decide (localName e = name)
  | ClassSel class => bool_decide (class ∈ classList e)
  | HasAttrSel attr => bool_decide (is_Some (attributes e !! attr))
  end.

Fixpoint preorder (t : tree) : list node :=
  match t with
  | Node i kids => i :: flat_map preorder kids
  end.

Definition descendants (t : tree) : list node :=
  match t with
  | Node _ kids => flat_map preorder kids
  end.

(** The subtree rooted at element [i], first occurrence in document order. *)
Fixpoint subtree (i : node) (t : tree) : option tree :=
  match t with
  | Node j kids =>
      if decide (i = j) then Some t
      else (fix first (ks : list tree) : option tree :=
              match ks with
              | [] => None
              | k :: ks' =>
                  match subtree i k with
                  | Some r => Some r
                  | None => first ks'
                  end
              end) kids
  end.

(** [replace_kids i new t]: the children of every node named [i] become [new]. *)
Fixpoint replace_kids (i : node) (new : list tree) (t : tree) : tree :=
  match t with
  | Node j kids =>
      if decide (i = j) then Node j new
      else Node j (map (replace_kids i new) kids)
  end.

(** The search of [subtree] among a list of children, by name. *)
Definition subtree_in (i : node) : list tree -> option tree :=
  fix first (ks : list tree) : option tree :=
    match ks with
    | [] => None
    | k :: ks' =>
        match subtree i k with
        | Some r => Some r
        | None => first ks'
        end
    end.

(** [content_replaced i new t t']: the tree [t'] is [t] but for the children
    of one node [i], which are [new]; on the way down to it every sibling
    subtree, to the left and to the right, is the one of [t]. *)
Inductive content_replaced (i : node) (new : list tree) : tree -> tree -> Prop :=
| replaced_here (old : list tree) :
    content_replaced i new (Node i old) (Node i new)
| replaced_below (j : node) (l r : list tree) (k k' : tree) :
    j <> i ->
    content_replaced i new k k' ->
    content_replaced i new (Node j (l ++ k :: r)) (Node j (l ++ k' :: r)).

(** ** Browser state *)

(** The closure of [updateParallax]: the two variables of [setupParallax] it
    captures.  A scheduled callback carries the current values; the only code
    that reads or writes [lastScrollY] is the callback itself. *)
Record closure := Closure {
  parallaxElements : list node;
  lastScrollY : float
}.

(** Every write the scripts perform, in the order performed. *)
Inductive effect :=
| ConsoleLog (msg : string)
| SetInnerHTML (el : node) (markup : string)
| SetTransition (el : node) (value : string)
| AddClass (el : node) (class : string)
| NewObserver (rootMargin : string) (threshold : float)
| Observe (el : node)
| Unobserve (el : node)
| SetTransform (el : node) (value : string)
| RequestFrame.

Record state := State {
  dom_tree : tree;
  dom_elems : gmap node element;
  scrollY : float;
  observed : list node;
  raf_queue : list closure;
  trace : list effect
}.

(** The platform functions the scripts call and this development does not
    define: [parseFloat], the shortest-digits printer of non-integer numbers,
    and the HTML fragment parser behind the [innerHTML] setter (given the
    markup and the first unused node identity, the child trees and the
    records of the elements it creates). *)
Class Platform := {
  parseFloat : string -> float;
  shortest_digits : float -> string;
  parse_fragment : string -> node -> list tree * list (node * element)
}.

Definition emit (e : effect) (st : state) : state :=
  State (dom_tree st) (dom_elems st) (scrollY st) (observed st) (raf_queue st)
        (trace st ++ [e]).

Definition with_elems (m : gmap node element) (st : state) : state :=
  State (dom_tree st) m (scrollY st) (observed st) (raf_queue st) (trace st).

Definition with_tree (t : tree) (st : state) : state :=
  State t (dom_elems st) (scrollY st) (observed st) (raf_queue st) (trace st).

Definition with_observed (l : list node) (st : state) : state :=
  State (dom_tree st) (dom_elems st) (scrollY st) l (raf_queue st) (trace st).

Definition with_raf_queue (q : list closure) (st : state) : state :=
  State (dom_tree st) (dom_elems st) (scrollY st) (observed st) q (trace st).

Definition with_scrollY (y : float) (st : state) : state :=
  State (dom_tree st) (dom_elems st) y (observed st) (raf_queue st) (trace st).

(** *** Reads *)

Definition el_matches (st : state) (sel : selector) (i : node) : bool :=
  match dom_elems st !! i with
  | Some e => matches sel e
  | None => false
  end.

(** [document.querySelectorAll(sel)]: the matching elements in document order. *)
Definition document_querySelectorAll (st : state) (sel : selector) : list node :=
  List.filter (el_matches st sel) (preorder (dom_tree st)).

(** [document.querySelector(sel)]: the first of them, or [null]. *)
Definition document_querySelector (st : state) (sel : selector) : option node :=
  head (document_querySelectorAll st sel).

(** [el.querySelector(sel)]: the first matching proper descendant of [el]. *)
Definition element_querySelector (st : state) (el : node) (sel : selector) : option node :=
  match subtree el (dom_tree st) with
  | Some t => head (List.filter (el_matches st sel) (descendants t))
  | None => None
  end.

(** [el.dataset[name]]: the value of attribute [data-name], or [undefined]. *)
Definition dataset (st : state) (el : node) (name : string) : option string :=
  match dom_elems st !! el with
  | Some e => attributes e !! ("data-" ++ name)
  | None => None
  end.

(** *** Writes

    Each write updates the record of the element it names and logs itself.
    The scripts only write to elements that a query returned, which have a
    record; [alter] leaves the store alone for any other identity. *)

Definition console_log (msg : string) (st : state) : state :=
  emit (ConsoleLog msg) st.

Definition put_transition (v : string) (e : element) : element :=
  Element (localName e) (classList e) (attributes e) (innerHTML e) (Some v)
          (style_transform e).

Definition put_transform (v : string) (e : element) : element :=
  Element (localName e) (classList e) (attributes e) (innerHTML e)
          (style_transition e) (Some v).

Definition put_innerHTML (v : string) (e : element) : element :=
  Element (localName e) (classList e) (attributes e) (Some v)
          (style_transition e) (style_transform e).

(** [DOMTokenList.add]: appended unless already a member. *)
Definition put_class (c : string) (e : element) : element :=
  Element (localName e)
          (if bool_decide (c ∈ classList e) then classList e else classList e ++ [c])
          (attributes e) (innerHTML e) (style_transition e) (style_transform e).

Definition set_style_transition (el : node) (v : string) (st : state) : state :=
  emit (SetTransition el v) (with_elems (alter (put_transition v) el (dom_elems st)) st).

Definition set_style_transform (el : node) (v : string) (st : state) : state :=
  emit (SetTransform el v) (with_elems (alter (put_transform v) el (dom_elems st)) st).

Definition classList_add (el : node) (c : string) (st : state) : state :=
  emit (AddClass el c) (with_elems (alter (put_class c) el (dom_elems st)) st).

(** The first node identity not in use. *)
Definition fresh_node (st : state) : node :=
  S (max_list (preorder (dom_tree st) ++ (map_to_list (dom_elems st)).*1)).

(** The [innerHTML] setter: the element's children are replaced by the parse
    of the markup; records of existing elements are never overwritten by the
    parser's. *)
Definition set_innerHTML `{Platform} (el : node) (markup : string) (st : state) : state :=
  let '(kids, records) := parse_fragment markup (fresh_node st) in
  emit (SetInnerHTML el markup)
    (with_tree (replace_kids el kids (dom_tree st))
       (with_elems (alter (put_innerHTML markup) el (dom_elems st) ∪ list_to_map records) st)).

(** [observer.observe(el)] and [observer.unobserve(el)] on the observer's
    list of observation targets. *)
Definition observe (el : node) (st : state) : state :=
  emit (Observe el)
    (with_observed (if bool_decide (el ∈ observed st) then observed st
                    else observed st ++ [el]) st).

Definition unobserve (el : node) (st : state) : state :=
  emit (Unobserve el)
    (with_observed (List.filter (fun x => negb (Nat.eqb x el)) (observed st)) st).

(** [new IntersectionObserver(callback, options)]: a fresh, empty target list. *)
Definition new_IntersectionObserver (rootMargin : string) (threshold : float)
    (st : state) : state :=
  emit (NewObserver rootMargin threshold) (with_observed [] st).

Definition requestAnimationFrame (cb : closure) (st : state) : state :=
  emit RequestFrame (with_raf_queue (raf_queue st ++ [cb]) st).

(** One record handed to the observer callback. *)
Record entry := Entry {
  target : node;
  isIntersecting : bool
}.

(** The ASCII double quote. *)
Definition dquote : string := String (ascii_of_nat 34) EmptyString.

(** ** Reading content back

    The [innerHTML] getter serialises the nodes that the parser built from
    the assigned markup.  The part of the HTML standard modelled here is what
    markup of the shape [<p class="C">text</p>] goes through, in a context
    element whose content is parsed as ordinary flow content: the
    tokenizer's data state and the serialiser's escaping of text.  Strings
    are UTF-8 bytes. *)

Module HTML.

Definition is_alnum (c : ascii) : bool :=
  let n := nat_of_ascii c in
  (Nat.leb 48 n && Nat.leb n 57) || (Nat.leb 65 n && Nat.leb n 90)
  || (Nat.leb 97 n && Nat.leb n 122).

(** A character that the tokenizer's data state emits as it is: not [<], not
    NUL (dropped), not CR (normalised to LF), and [&] only where no
    character reference can start (the next character is neither
    alphanumeric nor [#]). *)
Definition literal_in_data (c : ascii) (next : option ascii) : bool :=
  if Ascii.eqb c "<" then false
  else if Nat.eqb (nat_of_ascii c) 0 then false
  else if Nat.eqb (nat_of_ascii c) 13 then false
  else if Ascii.eqb c "&" then
    match next with
    | Some d => negb (is_alnum d || Ascii.eqb d "#")
    | None => true
    end
  else true.

(** Text that becomes one text node holding exactly that text. *)
Fixpoint data_plain (s : string) : bool :=
  match s with
  | EmptyString => true
  | String c rest =>
      literal_in_data c (match rest with String d _ => Some d | EmptyString => None end)
      && data_plain rest
  end.

(** "Escaping a string" of the fragment serialisation algorithm, for the data
    of a text node: [&], [<], [>] and U+00A0 (bytes 194 160) are replaced. *)
Fixpoint escape_text (s : string) : string :=
  match s with
  | EmptyString => EmptyString
  | String c rest =>
      if Ascii.eqb c "&" then "&amp;" ++ escape_text rest
      else if Ascii.eqb c "<" then "&lt;" ++ escape_text rest
      else if Ascii.eqb c ">" then "&gt;" ++ escape_text rest
      else
        match rest with
        | String d rest' =>
            if Nat.eqb (nat_of_ascii c) 194 && Nat.eqb (nat_of_ascii d) 160
            then "&nbsp;" ++ escape_text rest'
            else String c (escape_text rest)
        | EmptyString => String c EmptyString
        end
  end.

(** A character that passes through parsing and serialisation unchanged,
    wherever it stands (text or attribute value): none of [&] [<] [>], the
    double quote, NUL, CR and the lead byte of U+0080..U+00BF. *)
Definition verbatim_char (c : ascii) : bool :=
  negb (Ascii.eqb c "&" || Ascii.eqb c "<" || Ascii.eqb c ">"
        || Nat.eqb (nat_of_ascii c) 34 || Nat.eqb (nat_of_ascii c) 0
        || Nat.eqb (nat_of_ascii c) 13 || Nat.eqb (nat_of_ascii c) 194).

Fixpoint verbatim (s : string) : bool :=
  match s with
  | EmptyString => true
  | String c rest => verbatim_char c && verbatim rest
  end.

Fixpoint strip_prefix (p s : string) : option string :=
  match p with
  | EmptyString => Some s
  | String a p' =>
      match s with
      | String b s' => if Ascii.eqb a b then strip_prefix p' s' else None
      | EmptyString => None
      end
  end.

(** The text before and after the first occurrence of [c]. *)
Fixpoint split_at (c : ascii) (s : string) : option (string * string) :=
  match s with
  | EmptyString => None
  | String a rest =>
      if Ascii.eqb a c then Some (EmptyString, rest)
      else
        match split_at c rest with
        | Some (before, after) => Some (String a before, after)
        | None => None
        end
  end.

Definition strip_suffix (suffix s : string) : option string :=
  let n := String.length s - String.length suffix in
  if String.eqb (substring n (String.length suffix) s) suffix
  then Some (substring 0 n s)
  else None.

(** The markup read back from the content parsed from [markup], when
    [markup] is one paragraph [<p class="C">text</p>] whose class value and
    text hold nothing that the tokenizer interprets: the same paragraph with
    the text escaped.  [None] for any markup outside this shape. *)
Definition reserialize (markup : string) : option string :=
  match strip_prefix ("<p class=" ++ dquote) markup with
  | Some r1 =>
      match split_at (ascii_of_nat 34) r1 with
      | Some (class, r2) =>
          match strip_prefix ">" r2 with
          | Some r3 =>
              match strip_suffix "</p>" r3 with
              | Some text =>
                  if verbatim class && data_plain text
                  then Some ("<p class=" ++ dquote ++ class ++ dquote ++ ">"
                             ++ escape_text text ++ "</p>")
                  else None
              | None => None
              end
          | None => None
          end
      | None => None
      end
  | None => None
  end.

(** Context elements in which a fragment is parsed as ordinary flow content
    (no raw text, no table or select rules). *)
Definition ordinary_context (name : string) : bool :=
  bool_decide (name ∈ ["div"; "section"; "article"; "main"; "aside"; "figure"; "span"]).

End HTML.

(** [el.innerHTML] read after an assignment: the serialisation of what the
    parser built from the markup last assigned, for the part of HTML
    modelled in [HTML] ([None] outside it, and for an element that was never
    assigned to). *)
Definition innerHTML_get (st : state) (el : node) : option string :=
  match dom_elems st !! el with
  | Some e =>
      if HTML.ordinary_context (localName e) then
        match innerHTML e with
        | Some markup => HTML.reserialize markup
        | None => None
        end
      else None
  | None => None
  end.

(** ** [src/app.js] *)

Module App.

Definition PARALLAX_MAX_STRENGTH : float := 0.3%float.
Definition observerRootMargin : string := "0px 0px -50% 0px".

Definition found_message : string :=
  "360 Viewer Logic: Element '.gw-pano' found. Hypothetical 360 viewer script is loaded and initialized.".

Definition skipped_message : string :=
  "360 Viewer Logic: Element '.gw-pano' NOT found. 360 script loading successfully skipped.".

Definition parallax_disabled_message : string :=
  "Parallax Logic: Reduced motion detected. Parallax scrolling is disabled.".

Definition parallax_active_message : string :=
  "Parallax Logic: Parallax initialized and active via requestAnimationFrame.".

(** The template literal assigned to [panoElement.innerHTML]. *)
Definition confirmation_markup (src : string) : string :=
  "<p class=" ++ dquote ++ "text-lg text-indigo-700 font-semibold" ++ dquote
  ++ ">360 Viewer Initialized! (Source: " ++ src ++ ")</p>".

Section Script.
Context `{Platform}.

(** [window.matchMedia('(prefers-reduced-motion: reduce)').matches], sampled
    once when the script is evaluated. *)
Variable prefersReducedMotion : bool.

Definition load360ViewerScript (st : state) : state :=
  let panoElement := document_querySelector st (ClassSel "gw-pano") in
  match panoElement with
  | Some pano =>
      let st1 := console_log found_message st in
      set_innerHTML pano (confirmation_markup (JS.ToString (dataset st1 pano "src"))) st1
  | None => console_log skipped_message st
  end.

(** The body of [entries.forEach(entry => ...)] in the observer callback. *)
Definition on_entry (en : entry) (st : state) : state :=
  match element_querySelector st (target en) (ClassSel "section-content") with
  | Some content =>
      if isIntersecting en then
        let st1 := if prefersReducedMotion
                   then set_style_transition content "none" st else st in
        let st2 := classList_add (target en) "is-visible" st1 in
        unobserve (target en) st2
      else st
  | None => st
  end.

Definition observer_callback (entries : list entry) (st : state) : state :=
  foldl (fun s en => on_entry en s) st entries.

Definition setupIntersectionObserver (st : state) : state :=
  let sections := document_querySelectorAll st (TypeSel "section") in
  let st1 := new_IntersectionObserver observerRootMargin 0 st in
  foldl (fun s section => observe section s) st1 sections.

(** The body of [parallaxElements.forEach(el => ...)]. *)
Definition update_element (currentScrollY : float) (el : node) (st : state) : state :=
  let strength := parseFloat (JS.ToString (dataset st el "parallax")) in
  let clampedStrength := JS.Math_min (JS.Math_max 0 strength) PARALLAX_MAX_STRENGTH in
  let movement := (currentScrollY * clampedStrength * -1)%float in
  set_style_transform el
    ("translateY(" ++ JS.Number_toString shortest_digits movement ++ "px)") st.

Definition updateParallax (env : closure) (st : state) : state :=
  let currentScrollY := scrollY st in
  if JS.strict_neq currentScrollY (lastScrollY env) then
    let env' := Closure (parallaxElements env) currentScrollY in
    let st1 := foldl (fun s el => update_element currentScrollY el s) st
                     (parallaxElements env) in
    requestAnimationFrame env' st1
  else requestAnimationFrame env st.

Definition setupParallax (st : state) : state :=
  if prefersReducedMotion then console_log parallax_disabled_message st
  else
    let parallaxElements := document_querySelectorAll st (HasAttrSel "data-parallax") in
    let lastScrollY := scrollY st in
    let st1 := console_log parallax_active_message st in
    requestAnimationFrame (Closure parallaxElements lastScrollY) st1.

Definition onload (st : state) : state :=
  setupParallax (setupIntersectionObserver (load360ViewerScript st)).

(** *** What the platform does after [onload] *)

(** The user scrolls, the display refreshes (the queued frame callbacks are
    taken off the queue and run), or the observer delivers a batch of entries. *)
Inductive event :=
| Scroll (y : float)
| Frame
| Intersection (entries : list entry).

Definition animation_frame (st : state) : state :=
  foldl (fun s cb => updateParallax cb s) (with_raf_queue [] st) (raf_queue st).

Definition step (st : state) (ev : event) : state :=
  match ev with
  | Scroll y => with_scrollY y st
  | Frame => animation_frame st
  | Intersection entries => observer_callback entries st
  end.

Definition run (evs : list event) (st : state) : state := foldl step st evs.

End Script.
End App.

(** ** [src/unnamed/part_000] (the reveal controller)

    The file differs from [src/app.js] in comments and in the selector of
    [setupIntersectionObserver]; only that routine and its callback are
    embedded a second time. *)

Module Part000.

Definition observerRootMargin : string := "0px 0px -50% 0px".

Section Script.
Variable prefersReducedMotion : bool.

Definition on_entry (en : entry) (st : state) : state :=
  match element_querySelector st (target en) (ClassSel "section-content") with
  | Some content =>
      if isIntersecting en then
        let st1 := if prefersReducedMotion
                   then set_style_transition content "none" st else st in
        let st2 := classList_add (target en) "is-visible" st1 in
        unobserve (target en) st2
      else st
  | None => st
  end.

Definition observer_callback (entries : list entry) (st : state) : state :=
  foldl (fun s en => on_entry en s) st entries.

Definition setupIntersectionObserver (st : state) : state :=
  let sections := document_querySelectorAll st (ClassSel "gw-chapter") in
  let st1 := new_IntersectionObserver observerRootMargin 0 st in
  foldl (fun s section => observe section s) st1 sections.

(** The rest of the file: the loader, the parallax controller and
    [window.onload], with the file's own constants. *)
Context `{Platform}.

Definition PARALLAX_MAX_STRENGTH : float := 0.3%float.

Definition found_message : string :=
  "360 Viewer Logic: Element '.gw-pano' found. Hypothetical 360 viewer script is loaded and initialized.".

Definition skipped_message : string :=
  "360 Viewer Logic: Element '.gw-pano' NOT found. 360 script loading successfully skipped.".

Definition parallax_disabled_message : string :=
  "Parallax Logic: Reduced motion detected. Parallax scrolling is disabled.".

Definition parallax_active_message : string :=
  "Parallax Logic: Parallax initialized and active via requestAnimationFrame.".

Definition confirmation_markup (src : string) : string :=
  "<p class=" ++ dquote ++ "text-lg text-indigo-700 font-semibold" ++ dquote
  ++ ">360 Viewer Initialized! (Source: " ++ src ++ ")</p>".

Definition load360ViewerScript (st : state) : state :=
  let panoElement := document_querySelector st (ClassSel "gw-pano") in
  match panoElement with
  | Some pano =>
      let st1 := console_log found_message st in
      set_innerHTML pano (confirmation_markup (JS.ToString (dataset st1 pano "src"))) st1
  | None => console_log skipped_message st
  end.

Definition update_element (currentScrollY : float) (el : node) (st : state) : state :=
  let strength := parseFloat (JS.ToString (dataset st el "parallax")) in
  let clampedStrength := JS.Math_min (JS.Math_max 0 strength) PARALLAX_MAX_STRENGTH in
  let movement := (currentScrollY * clampedStrength * -1)%float in
  set_style_transform el
    ("translateY(" ++ JS.Number_toString shortest_digits movement ++ "px)") st.

Definition updateParallax (env : closure) (st : state) : state :=
  let currentScrollY := scrollY st in
  if JS.strict_neq currentScrollY (lastScrollY env) then
    let env' := Closure (parallaxElements env) currentScrollY in
    let st1 := foldl (fun s el => update_element currentScrollY el s) st
                     (parallaxElements env) in
    requestAnimationFrame env' st1
  else requestAnimationFrame env st.

Definition setupParallax (st : state) : state :=
  if prefersReducedMotion then console_log parallax_disabled_message st
  else
    let parallaxElements := document_querySelectorAll st (HasAttrSel "data-parallax") in
    let lastScrollY := scrollY st in
    let st1 := console_log parallax_active_message st in
    requestAnimationFrame (Closure parallaxElements lastScrollY) st1.

Definition onload (st : state) : state :=
  setupParallax (setupIntersectionObserver (load360ViewerScript st)).

Definition animation_frame (st : state) : state :=
  foldl (fun s cb => updateParallax cb s) (with_raf_queue [] st) (raf_queue st).

Definition step (st : state) (ev : App.event) : state :=
  match ev with
  | App.Scroll y => with_scrollY y st
  | App.Frame => animation_frame st
  | App.Intersection entries => observer_callback entries st
  end.

Definition run (evs : list App.event) (st : state) : state := foldl step st evs.

End Script.
End Part000.

(** ** A reference platform *)

Module Reference.

Definition digit_of (c : ascii) : option Z :=
  let n := Z.of_nat (nat_of_ascii c) in
  if ((48 <=? n) && (n <=? 57))%Z then Some (n - 48)%Z else None.

Fixpoint read_digits (s : string) (acc : Z) (count : nat) : Z * nat * string :=
  match s with
  | String c rest =>
      match digit_of c with
      | Some d => read_digits rest (10 * acc + d)%Z (S count)
      | None => (acc, count, s)
      end
  | EmptyString => (acc, count, s)
  end.

Definition float_of_Z (z : Z) : float := PrimFloat.of_uint63 (Uint63.of_Z z).

(** [parseFloat] on a plain decimal literal (sign, digits, optional
    fraction; the longest such prefix is read, anything else is NaN).  The
    value is one correctly rounded division, exact for up to 15 significant
    digits. *)
Definition parseFloat_decimal (s : string) : float :=
  let '(neg, s1) :=
    match s with
    | String "-"%char r => (true, r)
    | String "+"%char r => (false, r)
    | _ => (false, s)
    end in
  let '(ip, ic, s2) := read_digits s1 0%Z 0 in
  let '(mant, fc) :=
    match s2 with
    | String "."%char r => let '(m, c, _) := read_digits r ip 0 in (m, c)
    | _ => (ip, 0)
    end in
  if (ic + fc =? 0)%nat then PrimFloat.nan
  else
    let v := (float_of_Z mant / float_of_Z (10 ^ Z.of_nat fc))%float in
    if neg then (- v)%float else v.

(** A platform for running the model: the decimal [parseFloat] above, a
    digit printer that is never reached on integers, and a fragment parser
    that builds no element (as for markup that is text only). *)
Definition platform : Platform :=
  Build_Platform parseFloat_decimal (fun _ => "?") (fun _ _ => ([], [])).

End Reference.

(** The page before any script has run: nothing observed, nothing scheduled,
    nothing written. *)
Definition initial_state (t : tree) (elems : gmap node element) (y : float) : state :=
  State t elems y [] [] [].

(** Two states that differ at most in their trace. *)
Definition same_page (s s' : state) : Prop :=
  dom_tree s = dom_tree s' /\ dom_elems s = dom_elems s' /\ scrollY s = scrollY s'
  /\ observed s = observed s' /\ raf_queue s = raf_queue s'.

Definition has_class (st : state) (el : node) (c : string) : Prop :=
  exists e, dom_elems st !! el = Some e /\ c ∈ classList e.

(** How one element record may differ after the page has run for a while:
    only [is-visible] can have joined its classes, its transition can only
    have become ["none"], its transform is free. *)
Definition grows (e e' : element) : Prop :=
  localName e' = localName e /\ attributes e' = attributes e
  /\ innerHTML e' = innerHTML e
  /\ (forall c, c ∈ classList e -> c ∈ classList e')
  /\ (forall c, c ∈ classList e' -> c ∈ classList e \/ c = "is-visible")
  /\ (style_transition e' = style_transition e \/ style_transition e' = Some "none").

(** The same for pages: same tree, same elements, each record grown, and no
    new observation target. *)
Definition evolves (s s' : state) : Prop :=
  dom_tree s' = dom_tree s
  /\ (forall i, match dom_elems s !! i, dom_elems s' !! i with
                | Some e, Some e' => grows e e'
                | None, None => True
                | _, _ => False
                end)
  /\ (forall x, x ∈ observed s' -> x ∈ observed s).

(** The terminal state of the reveal of section [t]: no longer a target, the
    flag present and, under reduced motion, the wrapper's transition off. *)
Definition revealed (reduced : bool) (st : state) (t : node) : Prop :=
  (t ∉ observed st)
  /\ (forall e, dom_elems st !! t = Some e -> "is-visible" ∈ classList e)
  /\ (reduced = true -> forall c e,
        element_querySelector st t (ClassSel "section-content") = Some c ->
        dom_elems st !! c = Some e -> style_transition e = Some "none").

(** The effects of the parallax loop. *)
Definition animates (e : effect) : Prop :=
  match e with
  | SetTransform _ _ | RequestFrame => True
  | _ => False
  end.

(** The two writes that reveal section [t]. *)
Definition flags (t : node) (e : effect) : Prop :=
  match e with
  | AddClass el _ | Unobserve el => el = t
  | _ => False
  end.

(** From [s] to [s'] section [t] was left alone: same classes, still a target
    if it was one, and no revealing write was added to the trace. *)
Definition keeps (t : node) (s s' : state) : Prop :=
  classList <$> (dom_elems s' !! t) = classList <$> (dom_elems s !! t)
  /\ (t ∈ observed s -> t ∈ observed s')
  /\ (forall e, e ∈ trace s' -> flags t e -> e ∈ trace s).

(** From [s] to [s'] nothing was animated: the frame queue is the same,
    every element of [s] has the transform it had, and the trace gained no
    effect of the parallax loop. *)
Definition calm (s s' : state) : Prop :=
  raf_queue s' = raf_queue s
  /\ (forall el e, dom_elems s !! el = Some e ->
        exists e', dom_elems s' !! el = Some e' /\ style_transform e' = style_transform e)
  /\ (forall e, e ∈ trace s' -> animates e -> e ∈ trace s).

(** The text assigned to [el.style.transform] for scroll position [y] and
    parsed strength [s]. *)
Definition offset_text `{Platform} (y s : float) : string :=
  "translateY("
  ++ JS.Number_toString shortest_digits
       (y * JS.Math_min (JS.Math_max 0 s) 0.3 * -1)%float
  ++ "px)".


(** The single writes of which every event handled after [onload] is made
    (the transition is only written under reduced motion). *)
Inductive write_of (reduced : bool) : state -> state -> Prop :=
| write_scroll (y : float) (s : state) : write_of reduced s (with_scrollY y s)
| write_dequeue (s : state) : write_of reduced s (with_raf_queue [] s)
| write_transition (c : node) (s : state) :
    reduced = true -> write_of reduced s (set_style_transition c "none" s)
| write_class (t : node) (s : state) :
    write_of reduced s (classList_add t "is-visible" s)
| write_unobserve (t : node) (s : state) : write_of reduced s (unobserve t s)
| write_transform (el : node) (v : string) (s : state) :
    write_of reduced s (set_style_transform el v s)
| write_request (cb : closure) (s : state) :
    write_of reduced s (requestAnimationFrame cb s).

(** The effects an event handled after [onload] can add to the trace. *)
Definition runtime_effect (reduced : bool) (e : effect) : Prop :=
  match e with
  | SetTransition _ v => reduced = true /\ v = "none"
  | AddClass _ c => c = "is-visible"
  | Unobserve _ | SetTransform _ _ | RequestFrame => True
  | ConsoleLog _ | SetInnerHTML _ _ | NewObserver _ _ | Observe _ => False
  end.

(** A step that reads and writes the page without looking at the trace. *)
Definition respects (f : state -> state) : Prop :=
  forall s s', same_page s s' -> same_page (f s) (f s').

(** Two steps that can be taken in either order. *)
Definition commute (f g : state -> state) : Prop :=
  forall s, same_page (g (f s)) (f (g s)).

(** ** Sample documents *)

Module Sample.

Definition plain (name : string) (classes : list string) : element :=
  Element name classes ∅ None None None.

Definition with_data (name : string) (classes : list string) (k v : string) : element :=
  Element name classes {[ k := v ]} None None None.

(** [<body><section class="gw-chapter"><div class="section-content"/></section>
    <section data-parallax="0.5"/><div class="gw-pano" data-src="pano.jpg"/></body>] *)
Definition page_tree : tree :=
  Node 0 [Node 1 [Node 2 []]; Node 3 []; Node 4 []].

Definition page_elems : gmap node element :=
  list_to_map
    [(0, plain "body" []);
     (1, plain "section" ["gw-chapter"]);
     (2, plain "div" ["section-content"]);
     (3, with_data "section" [] "data-parallax" "0.5");
     (4, with_data "div" ["gw-pano"] "data-src" "pano.jpg")].

Definition page : state := initial_state page_tree page_elems 0.

(** The page with its second section marked as a chapter too. *)
Definition chapters : state :=
  initial_state page_tree
    (<[3 := Element "section" ["gw-chapter"] {[ "data-parallax" := "0.5" ]} None None None]>
       page_elems) 0.

(** The page with a strength that is not a number. *)
Definition broken : state :=
  initial_state page_tree
    (<[3 := with_data "section" [] "data-parallax" "fast"]> page_elems) 0.

(** The page with a mount that carries no [data-src]. *)
Definition unsourced : state :=
  initial_state page_tree (<[4 := plain "div" ["gw-pano"]]> page_elems) 0.

(** The page with a [data-src] that holds a character HTML escapes. *)
Definition escaped : state :=
  initial_state page_tree
    (<[4 := with_data "div" ["gw-pano"] "data-src" "lobby>night.jpg"]> page_elems) 0.

(** The same page without the panorama mount. *)
Definition bare_tree : tree := Node 0 [Node 1 [Node 2 []]; Node 3 []].
Definition bare : state := initial_state bare_tree (delete 4 page_elems) 0.

End Sample.

Example parse_half : Reference.parseFloat_decimal "0.5" = 0.5%float.
Proof. reflexivity. Qed.
Example parse_bad : PrimFloat.is_nan (Reference.parseFloat_decimal "fast") = true.
Proof. reflexivity. Qed.
Example parse_undefined :
  PrimFloat.is_nan (Reference.parseFloat_decimal (JS.ToString None)) = true.
Proof. reflexivity. Qed.
Example print60 : JS.Number_toString (fun _ => "?") (-60)%float = "-60".
Proof. vm_compute. reflexivity. Qed.
Example print0 :
  JS.Number_toString (fun _ => "?") (0 * App.PARALLAX_MAX_STRENGTH * -1)%float = "0".
Proof. vm_compute. reflexivity. Qed.
Example print_nan : JS.Number_toString (fun _ => "?") PrimFloat.nan = "NaN".
Proof. vm_compute. reflexivity. Qed.

(** The clamp at the strengths -1, 0, 0.15, 0.3 and 5. *)
Example clamp_table :
  map (fun s => JS.Math_min (JS.Math_max 0 s) App.PARALLAX_MAX_STRENGTH)
      [(-1)%float; 0%float; 0.15%float; 0.3%float; 5%float]
  = [0%float; 0%float; 0.15%float; 0.3%float; 0.3%float].
Proof. reflexivity. Qed.

(** The offsets at strength 0.15 and scroll positions 0, 100 and 500. *)
Example offset_table :
  map (fun y => (y * JS.Math_min (JS.Math_max 0 0.15) App.PARALLAX_MAX_STRENGTH * -1)%float)
      [0%float; 100%float; 500%float]
  = [(-0)%float; (-15)%float; (-75)%float].
Proof. reflexivity. Qed.
Example sample_sections :
  document_querySelectorAll Sample.page (TypeSel "section") = [1; 3].
Proof. vm_compute. reflexivity. Qed.
Example sample_wrapper :
  element_querySelector Sample.page 1 (ClassSel "section-content") = Some 2.
Proof. vm_compute. reflexivity. Qed.
Example sample_mount : document_querySelector Sample.page (ClassSel "gw-pano") = Some 4.
Proof. vm_compute. reflexivity. Qed.

(** ** Trees and strings *)

Section Trees.

Lemma tree_kids_ind (P : tree -> Prop) :
  (forall i kids, Forall P kids -> P (Node i kids)) -> forall t, P t.
Proof.
  intros Hnode. fix IH 1. intros [i kids]. apply Hnode.
  induction kids as [|k ks IHks]; constructor; [apply IH | exact IHks].
Qed.

Lemma subtree_node (i j : node) (kids : list tree) :
  subtree i (Node j kids)
  = if decide (i = j) then Some (Node j kids) else subtree_in i kids.
Proof. reflexivity. Qed.

Lemma subtree_absent (i : node) (t : tree) : i ∉ preorder t -> subtree i t = None.
Proof.
  induction t as [j kids IH] using tree_kids_ind. intros Hnot.
  simpl in Hnot. apply not_elem_of_cons in Hnot as [Hne Hnot].
  rewrite subtree_node. rewrite decide_False by exact Hne.
  induction IH as [|k ks Hk _ IHks]; [reflexivity|].
  simpl in Hnot. rewrite elem_of_app in Hnot. simpl.
  rewrite Hk by tauto. apply IHks. tauto.
Qed.

Lemma replace_kids_absent (i : node) (new : list tree) (t : tree) :
  i ∉ preorder t -> replace_kids i new t = t.
Proof.
  induction t as [j kids IH] using tree_kids_ind. intros Hnot.
  simpl in Hnot. apply not_elem_of_cons in Hnot as [Hne Hnot].
  simpl. rewrite decide_False by exact Hne. f_equal.
  induction IH as [|k ks Hk _ IHks]; [reflexivity|].
  simpl in Hnot. rewrite elem_of_app in Hnot. simpl.
  rewrite Hk by tauto. f_equal. apply IHks. tauto.
Qed.

Lemma replace_kids_absent_all (i : node) (new : list tree) (ks : list tree) :
  i ∉ flat_map preorder ks -> map (replace_kids i new) ks = ks.
Proof.
  induction ks as [|k ks IH]; [reflexivity|]. simpl. rewrite elem_of_app. intros Hnot.
  rewrite replace_kids_absent by tauto. f_equal. apply IH. tauto.
Qed.

(** After [replace_kids] the element is where it was, with the new children. *)
Lemma subtree_replace_kids (i : node) (new : list tree) (t : tree) :
  i ∈ preorder t -> subtree i (replace_kids i new t) = Some (Node i new).
Proof.
  induction t as [j kids IH] using tree_kids_ind. intros Hin. simpl.
  destruct (decide (i = j)) as [->|Hne].
  - rewrite subtree_node. rewrite decide_True by reflexivity. reflexivity.
  - rewrite subtree_node. rewrite decide_False by exact Hne.
    simpl in Hin. apply elem_of_cons in Hin as [Heq|Hin]; [contradiction|].
    induction IH as [|k ks Hk _ IHks].
    + apply not_elem_of_nil in Hin. contradiction.
    + simpl in Hin. simpl. destruct (decide (i ∈ preorder k)) as [Hik|Hik].
      * rewrite (Hk Hik). reflexivity.
      * rewrite (replace_kids_absent i new k Hik), (subtree_absent i k Hik).
        apply IHks. apply elem_of_app in Hin as [Hin|Hin]; [contradiction | exact Hin].
Qed.

(** In a tree of distinct nodes, [replace_kids] changes the document order
    in one place: the descendants of the element give way to the nodes of
    the new children. *)
Lemma preorder_replace_kids (i : node) (new : list tree) (t : tree) :
  i ∈ preorder t -> NoDup (preorder t) ->
  exists before old after,
    preorder t = (before ++ i :: flat_map preorder old ++ after)%list
    /\ subtree i t = Some (Node i old)
    /\ preorder (replace_kids i new t)
       = (before ++ i :: flat_map preorder new ++ after)%list.
Proof.
  induction t as [j kids IH] using tree_kids_ind. intros Hin Hnd.
  destruct (decide (i = j)) as [->|Hne].
  - exists [], kids, []. simpl. rewrite !app_nil_r.
    repeat case_decide; try congruence. auto.
  - simpl in Hin. apply elem_of_cons in Hin as [Heq|Hin]; [contradiction|].
    simpl in Hnd. apply NoDup_cons in Hnd as [_ Hnd].
    assert (Hkids : exists before old after,
              flat_map preorder kids = (before ++ i :: flat_map preorder old ++ after)%list
              /\ subtree_in i kids = Some (Node i old)
              /\ flat_map preorder (map (replace_kids i new) kids)
                 = (before ++ i :: flat_map preorder new ++ after)%list).
    { induction IH as [|k ks Hk _ IHks].
      - apply not_elem_of_nil in Hin. contradiction.
      - simpl in Hin, Hnd. apply NoDup_app in Hnd as (Hndk & Hdisj & Hndks).
        destruct (decide (i ∈ preorder k)) as [Hik|Hik].
        + destruct (Hk Hik Hndk) as (before & old & after & Hp & Hs & Hr).
          exists before, old, (after ++ flat_map preorder ks)%list. simpl.
          rewrite Hs, Hr, Hp, (replace_kids_absent_all i new ks (Hdisj i Hik)).
          rewrite <- !app_assoc. simpl. rewrite <- !app_assoc. auto.
        + apply elem_of_app in Hin as [Hin|Hin]; [contradiction|].
          destruct (IHks Hin Hndks) as (before & old & after & Hp & Hs & Hr).
          exists (preorder k ++ before)%list, old, after. simpl.
          rewrite (replace_kids_absent i new k Hik), (subtree_absent i k Hik), Hp, Hs, Hr.
          rewrite <- !app_assoc. auto. }
    destruct Hkids as (before & old & after & Hp & Hs & Hr).
    exists (j :: before), old, after. rewrite subtree_node.
    simpl. repeat case_decide; try congruence. simpl. rewrite Hp, Hs, Hr. auto.
Qed.

(** In a tree of distinct nodes, [replace_kids] touches one place only. *)
Lemma replace_kids_content_replaced (i : node) (new : list tree) (t : tree) :
  i ∈ preorder t -> NoDup (preorder t) ->
  content_replaced i new t (replace_kids i new t).
Proof.
  induction t as [j kids IH] using tree_kids_ind. intros Hin Hnd.
  destruct (decide (i = j)) as [->|Hne].
  - simpl. rewrite decide_True by reflexivity. constructor.
  - simpl in Hin. apply elem_of_cons in Hin as [Heq|Hin]; [contradiction|].
    simpl in Hnd. apply NoDup_cons in Hnd as [_ Hnd].
    assert (Hkids : exists l k r,
              kids = (l ++ k :: r)%list
              /\ map (replace_kids i new) kids = (l ++ replace_kids i new k :: r)%list
              /\ content_replaced i new k (replace_kids i new k)).
    { induction IH as [|k ks Hk _ IHks].
      - apply not_elem_of_nil in Hin. contradiction.
      - simpl in Hin, Hnd. apply NoDup_app in Hnd as (Hndk & Hdisj & Hndks).
        destruct (decide (i ∈ preorder k)) as [Hik|Hik].
        + exists [], k, ks. simpl.
          rewrite (replace_kids_absent_all i new ks (Hdisj i Hik)). auto.
        + apply elem_of_app in Hin as [Hin|Hin]; [contradiction|].
          destruct (IHks Hin Hndks) as (l & k0 & r & Hks & Hmap & Hrep).
          exists (k :: l), k0, r. simpl.
          rewrite (replace_kids_absent i new k Hik), Hmap, Hks. auto. }
    destruct Hkids as (l & k & r & Hks & Hmap & Hrep).
    simpl. rewrite decide_False by exact Hne. rewrite Hmap, Hks.
    apply replaced_below; [congruence | exact Hrep].
Qed.

Lemma querySelector_in_tree (st : state) (sel : selector) (el : node) :
  document_querySelector st sel = Some el ->
  el ∈ preorder (dom_tree st)
  /\ exists e, dom_elems st !! el = Some e /\ matches sel e = true.
Proof.
  unfold document_querySelector, document_querySelectorAll. intros Hhd.
  apply head_Some_elem_of, list_elem_of_In, filter_In in Hhd as [Hin Hm].
  split; [apply list_elem_of_In, Hin|].
  unfold el_matches in Hm. destruct (dom_elems st !! el) as [e|]; [|discriminate].
  exists e. auto.
Qed.

Lemma append_cons (x : ascii) (a b : string) : String x a ++ b = String x (a ++ b).
Proof. reflexivity. Qed.

Lemma append_nil (b : string) : EmptyString ++ b = b.
Proof. reflexivity. Qed.

Lemma string_app_assoc (a b c : string) : (a ++ b) ++ c = a ++ (b ++ c).
Proof.
  induction a as [|x a IH]; [reflexivity|]. rewrite !append_cons. f_equal. exact IH.
Qed.

Lemma strip_prefix_app (p s : string) : HTML.strip_prefix p (p ++ s) = Some s.
Proof.
  induction p as [|a p IH]; [reflexivity|].
  rewrite append_cons. cbn [HTML.strip_prefix]. rewrite Ascii.eqb_refl. exact IH.
Qed.

Lemma verbatim_no_quote (a : ascii) :
  HTML.verbatim_char a = true -> Ascii.eqb a (ascii_of_nat 34) = false.
Proof.
  unfold HTML.verbatim_char. intros Hv. apply Ascii.eqb_neq. intros ->.
  vm_compute in Hv. discriminate Hv.
Qed.

Lemma split_at_quote (a b : string) :
  HTML.verbatim a = true ->
  HTML.split_at (ascii_of_nat 34) (a ++ String (ascii_of_nat 34) b) = Some (a, b).
Proof.
  induction a as [|x a IH]; intros Hv.
  - rewrite append_nil. cbn [HTML.split_at]. rewrite Ascii.eqb_refl. reflexivity.
  - cbn [HTML.verbatim] in Hv. apply andb_true_iff in Hv as [Hx Ha].
    rewrite append_cons. cbn [HTML.split_at].
    rewrite (verbatim_no_quote x Hx), (IH Ha). reflexivity.
Qed.

Lemma string_length_app (a b : string) :
  String.length (a ++ b) = String.length a + String.length b.
Proof.
  induction a as [|x a IH]; [reflexivity|]. rewrite append_cons. simpl. f_equal. exact IH.
Qed.

Lemma substring_all (s : string) : substring 0 (String.length s) s = s.
Proof. induction s as [|x s IH]; [reflexivity|]. simpl. f_equal. exact IH. Qed.

Lemma substring_head (a b : string) : substring 0 (String.length a) (a ++ b) = a.
Proof.
  induction a as [|x a IH]; [destruct b; reflexivity|].
  rewrite append_cons. simpl. f_equal. exact IH.
Qed.

Lemma substring_tail (a b : string) :
  substring (String.length a) (String.length b) (a ++ b) = b.
Proof.
  induction a as [|x a IH]; [rewrite append_nil; apply substring_all|].
  rewrite append_cons. simpl. exact IH.
Qed.

Lemma strip_suffix_app (suffix a : string) :
  HTML.strip_suffix suffix (a ++ suffix) = Some a.
Proof.
  unfold HTML.strip_suffix. rewrite string_length_app.
  replace (String.length a + String.length suffix - String.length suffix)
    with (String.length a) by lia.
  rewrite substring_tail, String.eqb_refl, substring_head. reflexivity.
Qed.




(** The read-back of one paragraph with a verbatim class value. *)
Lemma reserialize_paragraph (class text : string) :
  HTML.verbatim class = true ->
  HTML.reserialize ("<p class=" ++ dquote ++ class ++ dquote ++ ">" ++ text ++ "</p>")
  = if HTML.data_plain text
    then Some ("<p class=" ++ dquote ++ class ++ dquote ++ ">"
               ++ HTML.escape_text text ++ "</p>")
    else None.
Proof.
  intros Hclass. unfold HTML.reserialize.
  replace ("<p class=" ++ dquote ++ class ++ dquote ++ ">" ++ text ++ "</p>")
    with (("<p class=" ++ dquote) ++ class ++ dquote ++ ">" ++ text ++ "</p>")
    by (rewrite string_app_assoc; reflexivity).
  rewrite strip_prefix_app.
  change (dquote ++ ">" ++ text ++ "</p>")
    with (String (ascii_of_nat 34) (">" ++ text ++ "</p>")).
  rewrite (split_at_quote class _ Hclass).
  change (HTML.strip_prefix ">" (">" ++ text ++ "</p>"))
    with (HTML.strip_prefix EmptyString (text ++ "</p>")).
  cbn [HTML.strip_prefix]. rewrite strip_suffix_app, Hclass. reflexivity.
Qed.

End Trees.

(** ** The panorama loader *)

Section Loader.
Context `{Platform}.

(** C4. When no element matches ['.gw-pano'], [load360ViewerScript] leaves
    the element tree, every element record, the observer and the frame queue
    as they were; its only effect is one console message, the one of the
    skipped branch, which is not the message of the found branch. *)
Theorem load_absent_mount_is_inert (st : state) :
  document_querySelector st (ClassSel "gw-pano") = None ->
  same_page (App.load360ViewerScript st) st
  /\ trace (App.load360ViewerScript st) = (trace st ++ [ConsoleLog App.skipped_message])%list
  /\ App.skipped_message <> App.found_message.
Proof.
  intros Hnone. unfold App.load360ViewerScript. rewrite Hnone.
  repeat split. intros Heq. discriminate Heq.
Qed.


End Loader.

Lemma load_absent_mount_is_inert_witness :
  document_querySelector Sample.bare (ClassSel "gw-pano") = None
  /\ trace (@App.load360ViewerScript Reference.platform Sample.bare)
     = [ConsoleLog App.skipped_message].
Proof.
  split; [vm_compute; reflexivity|].
  apply (@load_absent_mount_is_inert Reference.platform Sample.bare).
  vm_compute; reflexivity.
Defined.



Example escaped_content :
  innerHTML_get (@App.load360ViewerScript Reference.platform Sample.escaped) 4
  = Some ("<p class=" ++ dquote ++ "text-lg text-indigo-700 font-semibold" ++ dquote
          ++ ">360 Viewer Initialized! (Source: lobby&gt;night.jpg)</p>").
Proof. vm_compute. reflexivity. Qed.

Example ampersand_content :
  HTML.reserialize (App.confirmation_markup "a & b")
  = Some ("<p class=" ++ dquote ++ "text-lg text-indigo-700 font-semibold" ++ dquote
          ++ ">360 Viewer Initialized! (Source: a &amp; b)</p>").
Proof. vm_compute. reflexivity. Qed.

(** ** The reveal controller *)

Section Reveal.
Context `{Platform}.
Variable reduced : bool.

Lemma grows_refl (e : element) : grows e e.
Proof. unfold grows. intuition. Qed.

Lemma grows_trans (a b c : element) : grows a b -> grows b c -> grows a c.
Proof.
  intros (Hn & Ha & Hi & Hm & Hv & Ht) (Hn' & Ha' & Hi' & Hm' & Hv' & Ht').
  unfold grows. repeat split; try congruence.
  - intros x Hx. auto.
  - intros x Hx. destruct (Hv' x Hx) as [Hb | ->]; auto.
  - destruct Ht' as [Ht' | Ht']; [rewrite Ht'; exact Ht | right; exact Ht'].
Qed.

Lemma evolves_refl (s : state) : evolves s s.
Proof.
  split; [reflexivity|]. split; [|auto].
  intros i. destruct (dom_elems s !! i); [apply grows_refl | exact I].
Qed.

Lemma evolves_trans (a b c : state) : evolves a b -> evolves b c -> evolves a c.
Proof.
  intros (Ht & He & Ho) (Ht' & He' & Ho'). split; [congruence|]. split; [|auto].
  intros i. specialize (He i). specialize (He' i).
  destruct (dom_elems a !! i), (dom_elems b !! i), (dom_elems c !! i);
    try contradiction; try exact I.
  eapply grows_trans; eassumption.
Qed.

(** A write through [alter] with a growing function, followed by anything
    that leaves tree and records alone and drops targets at most. *)
Lemma evolves_alter (f : element -> element) (i : node) (s s' : state) :
  (forall e, grows e (f e)) ->
  dom_tree s' = dom_tree s ->
  dom_elems s' = alter f i (dom_elems s) ->
  (forall x, x ∈ observed s' -> x ∈ observed s) ->
  evolves s s'.
Proof.
  intros Hf Ht He Ho. split; [exact Ht|]. split; [|exact Ho].
  intros j. rewrite He, lookup_alter. case_decide as Hij.
  - subst j. destruct (dom_elems s !! i); simpl; [apply Hf | exact I].
  - destruct (dom_elems s !! j); [apply grows_refl | exact I].
Qed.

Lemma grows_put_transition_none (e : element) : grows e (put_transition "none" e).
Proof. unfold grows; simpl. intuition. Qed.

Lemma grows_put_transform (v : string) (e : element) : grows e (put_transform v e).
Proof. unfold grows; simpl. intuition. Qed.

Lemma grows_put_class_visible (e : element) : grows e (put_class "is-visible" e).
Proof.
  unfold grows; simpl. repeat split; auto.
  - intros c Hc. case_bool_decide; [exact Hc | apply elem_of_app; auto].
  - intros c Hc. case_bool_decide; [auto|].
    apply elem_of_app in Hc as [Hc | Hc]; [auto|].
    apply list_elem_of_singleton in Hc. auto.
Qed.

Lemma elem_of_unobserve (x el : node) (l : list node) :
  x ∈ List.filter (fun y => negb (Nat.eqb y el)) l <-> x ∈ l /\ x <> el.
Proof.
  rewrite !list_elem_of_In, filter_In, negb_true_iff, Nat.eqb_neq. reflexivity.
Qed.

Lemma unobserve_absent (el : node) (l : list node) :
  el ∉ l -> List.filter (fun y => negb (Nat.eqb y el)) l = l.
Proof.
  induction l as [|a l IH]; intros Hnot; [reflexivity|]. simpl.
  apply not_elem_of_cons in Hnot as [Hne Hnot].
  destruct (Nat.eqb_spec a el) as [->|_]; [congruence|].
  simpl. rewrite IH by exact Hnot. reflexivity.
Qed.

Lemma set_style_transition_none_evolves (c : node) (s : state) :
  evolves s (set_style_transition c "none" s).
Proof.
  eapply evolves_alter; [apply grows_put_transition_none | reflexivity..| auto].
Qed.

Lemma set_style_transform_evolves (el : node) (v : string) (s : state) :
  evolves s (set_style_transform el v s).
Proof.
  eapply evolves_alter; [apply (grows_put_transform v) | reflexivity..| auto].
Qed.

Lemma classList_add_visible_evolves (t : node) (s : state) :
  evolves s (classList_add t "is-visible" s).
Proof.
  eapply evolves_alter; [apply grows_put_class_visible | reflexivity..| auto].
Qed.

Lemma unobserve_evolves (t : node) (s : state) : evolves s (unobserve t s).
Proof.
  split; [reflexivity|]. split.
  - intros i. simpl. destruct (dom_elems s !! i); [apply grows_refl | exact I].
  - simpl. intros x Hx. apply elem_of_unobserve in Hx. tauto.
Qed.

Lemma on_entry_evolves (en : entry) (s : state) : evolves s (App.on_entry reduced en s).
Proof.
  unfold App.on_entry.
  destruct (element_querySelector s (target en) _) as [c|]; [|apply evolves_refl].
  destruct (isIntersecting en); [|apply evolves_refl].
  eapply evolves_trans; [|apply unobserve_evolves].
  eapply evolves_trans; [|apply classList_add_visible_evolves].
  destruct reduced; [apply set_style_transition_none_evolves | apply evolves_refl].
Qed.

Lemma observer_callback_evolves (entries : list entry) (s : state) :
  evolves s (App.observer_callback reduced entries s).
Proof.
  unfold App.observer_callback. revert s.
  induction entries as [|en entries IH]; intros s; simpl; [apply evolves_refl|].
  eapply evolves_trans; [apply on_entry_evolves | apply IH].
Qed.

Lemma update_elements_evolves (y : float) (els : list node) (s : state) :
  evolves s (foldl (fun s el => App.update_element y el s) s els).
Proof.
  revert s. induction els as [|el els IH]; intros s; simpl; [apply evolves_refl|].
  eapply evolves_trans; [|apply IH]. apply set_style_transform_evolves.
Qed.

Lemma requestAnimationFrame_evolves (cb : closure) (s : state) :
  evolves s (requestAnimationFrame cb s).
Proof.
  split; [reflexivity|]. split; [|auto].
  intros i. simpl. destruct (dom_elems s !! i); [apply grows_refl | exact I].
Qed.

Lemma updateParallax_evolves (env : closure) (s : state) :
  evolves s (App.updateParallax env s).
Proof.
  unfold App.updateParallax. destruct (JS.strict_neq _ _).
  - eapply evolves_trans; [apply update_elements_evolves|].
    apply requestAnimationFrame_evolves.
  - apply requestAnimationFrame_evolves.
Qed.

Lemma run_callbacks_evolves (cbs : list closure) (s : state) :
  evolves s (foldl (fun s cb => App.updateParallax cb s) s cbs).
Proof.
  revert s. induction cbs as [|cb cbs IH]; intros s; simpl; [apply evolves_refl|].
  eapply evolves_trans; [apply updateParallax_evolves | apply IH].
Qed.

Lemma step_evolves (ev : App.event) (s : state) : evolves s (App.step reduced s ev).
Proof.
  destruct ev as [y| |entries]; simpl.
  - split; [reflexivity|]. split; [|auto].
    intros i. simpl. destruct (dom_elems s !! i); [apply grows_refl | exact I].
  - unfold App.animation_frame.
    eapply evolves_trans; [|apply run_callbacks_evolves].
    split; [reflexivity|]. split; [|auto].
    intros i. simpl. destruct (dom_elems s !! i); [apply grows_refl | exact I].
  - apply observer_callback_evolves.
Qed.

Lemma run_evolves (evs : list App.event) (s : state) : evolves s (App.run reduced evs s).
Proof.
  unfold App.run. revert s.
  induction evs as [|ev evs IH]; intros s; simpl; [apply evolves_refl|].
  eapply evolves_trans; [apply step_evolves | apply IH].
Qed.

(** The wrapper of a section is the same element for the whole life of the
    page. *)
Lemma evolves_wrapper (s s' : state) (t : node) :
  evolves s s' ->
  element_querySelector s' t (ClassSel "section-content")
  = element_querySelector s t (ClassSel "section-content").
Proof.
  intros (Ht & He & _). unfold element_querySelector. rewrite Ht.
  destruct (subtree t (dom_tree s)) as [sub|]; [|reflexivity].
  f_equal. apply filter_ext. intros i. unfold el_matches.
  specialize (He i).
  destruct (dom_elems s !! i) as [e|], (dom_elems s' !! i) as [e'|];
    try contradiction; [|reflexivity].
  destruct He as (_ & _ & _ & Hm & Hv & _). simpl.
  apply bool_decide_ext. split; [|apply Hm].
  intros Hc. destruct (Hv _ Hc) as [Hc'|Hc']; [exact Hc' | discriminate Hc'].
Qed.

Lemma same_page_refl (s : state) : same_page s s.
Proof. unfold same_page. auto. Qed.

Lemma same_page_trans (a b c : state) : same_page a b -> same_page b c -> same_page a c.
Proof. unfold same_page. intuition congruence. Qed.

Lemma revealed_same_page (s s' : state) (t : node) :
  same_page s' s -> revealed reduced s t -> revealed reduced s' t.
Proof.
  intros (Ht & He & _ & Ho & _) (Hobs & Hvis & Htr).
  unfold revealed, element_querySelector, el_matches. rewrite Ht, He, Ho.
  split; [exact Hobs|]. split; [exact Hvis | exact Htr].
Qed.

Lemma querySelector_Some_matches (s : state) (t c : node) (sel : selector) :
  element_querySelector s t sel = Some c ->
  exists e, dom_elems s !! c = Some e /\ matches sel e = true.
Proof.
  unfold element_querySelector. destruct (subtree t (dom_tree s)); [|discriminate].
  intros Hhd. apply head_Some_elem_of, list_elem_of_In, filter_In in Hhd as [_ Hm].
  unfold el_matches in Hm. destruct (dom_elems s !! c) as [e|]; [|discriminate].
  exists e. auto.
Qed.

Lemma revealed_evolves (s s' : state) (t : node) :
  evolves s s' -> revealed reduced s t -> revealed reduced s' t.
Proof.
  intros Hev (Hobs & Hvis & Htr).
  pose proof (evolves_wrapper s s' t Hev) as Hw.
  destruct Hev as (_ & He & Ho). split; [|split].
  - intros Hin. apply Hobs, Ho, Hin.
  - intros e' He'. specialize (He t). rewrite He' in He.
    destruct (dom_elems s !! t) as [e|]; [|contradiction].
    destruct He as (_ & _ & _ & Hm & _). apply Hm, Hvis. reflexivity.
  - intros Hred c e' Hc He'. rewrite Hw in Hc. specialize (He c). rewrite He' in He.
    destruct (dom_elems s !! c) as [e|] eqn:Hec; [|contradiction].
    destruct He as (_ & _ & _ & _ & _ & [Hsame | Hnone]); [|exact Hnone].
    rewrite Hsame. eapply Htr; eauto.
Qed.

(** Processing an intersecting entry of a section with a wrapper reaches the
    terminal state. *)
Lemma reveal_establishes (s : state) (t c : node) :
  element_querySelector s t (ClassSel "section-content") = Some c ->
  revealed reduced (App.on_entry reduced (Entry t true) s) t.
Proof.
  intros Hw.
  pose proof (evolves_wrapper _ _ t (on_entry_evolves (Entry t true) s)) as Hst.
  unfold revealed. rewrite Hst. clear Hst.
  unfold App.on_entry. simpl. rewrite Hw. split; [|split].
  - simpl. intros Hin. apply elem_of_unobserve in Hin. tauto.
  - intros e. simpl. rewrite lookup_alter_eq.
    destruct (_ !! t) as [e0|]; simpl; [|discriminate].
    intros [= <-]. simpl. case_bool_decide; [assumption|].
    apply elem_of_app. right. apply list_elem_of_singleton. reflexivity.
  - intros -> c' e Hc'. injection Hc' as <-. simpl.
    rewrite lookup_alter. case_decide.
    + subst t. rewrite lookup_alter_eq.
      destruct (dom_elems s !! c) as [e0|]; simpl; [|discriminate].
      intros [= <-]. reflexivity.
    + rewrite lookup_alter_eq.
      destruct (dom_elems s !! c) as [e0|]; simpl; [|discriminate].
      intros [= <-]. reflexivity.
Qed.

Lemma put_transition_same (v : string) (e : element) :
  style_transition e = Some v -> put_transition v e = e.
Proof. destruct e; simpl; intros ->; reflexivity. Qed.

Lemma put_class_same (c : string) (e : element) :
  c ∈ classList e -> put_class c e = e.
Proof.
  destruct e as [n cl a i tr tf]; simpl; intros Hc. unfold put_class; simpl.
  rewrite bool_decide_eq_true_2 by exact Hc. reflexivity.
Qed.

(** In the terminal state a further entry of the same section changes
    nothing of the page. *)
Lemma revealed_on_entry_same (s : state) (t : node) (b : bool) :
  revealed reduced s t -> same_page (App.on_entry reduced (Entry t b) s) s.
Proof.
  intros (Hobs & Hvis & Htr). unfold App.on_entry. simpl.
  destruct (element_querySelector s t _) as [c|] eqn:Hw; [|apply same_page_refl].
  destruct b; [|apply same_page_refl].
  assert (Hclass : alter (put_class "is-visible") t (dom_elems s) = dom_elems s).
  { apply alter_id. intros e He. apply put_class_same, Hvis, He. }
  destruct reduced eqn:Hred; unfold same_page; simpl.
  - assert (Htrans : alter (put_transition "none") c (dom_elems s) = dom_elems s).
    { apply alter_id. intros e He. apply put_transition_same. eapply Htr; eauto. }
    rewrite Htrans, Hclass, unobserve_absent by exact Hobs. auto.
  - rewrite Hclass, unobserve_absent by exact Hobs. auto.
Qed.

Lemma revealed_callback_same (entries : list entry) (s : state) (t : node) :
  revealed reduced s t ->
  Forall (fun en => target en = t) entries ->
  same_page (App.observer_callback reduced entries s) s.
Proof.
  unfold App.observer_callback. revert s.
  induction entries as [|[t' b] entries IH]; intros s Hrev Hall; simpl.
  - apply same_page_refl.
  - apply Forall_cons in Hall as [Ht Hall]. simpl in Ht. subst t'.
    pose proof (revealed_on_entry_same s t b Hrev) as Hsame.
    eapply same_page_trans; [|exact Hsame].
    apply IH; [|exact Hall]. eapply revealed_same_page; eassumption.
Qed.

(** C9. Under reduced motion, the callback on an intersecting entry of a
    section with a content wrapper performs exactly three writes, in this
    order: the wrapper's transition is set to ["none"], the class
    ["is-visible"] is added to the section, the section is unobserved.
    Afterwards the wrapper's transition is ["none"], the section carries the
    class and is no longer a target. *)
Theorem reduced_reveal_order (st : state) (t c : node) :
  element_querySelector st t (ClassSel "section-content") = Some c ->
  trace (App.observer_callback true [Entry t true] st)
  = (trace st ++ [SetTransition c "none"; AddClass t "is-visible"; Unobserve t])%list
  /\ (exists e, dom_elems (App.observer_callback true [Entry t true] st) !! c = Some e
                /\ style_transition e = Some "none")
  /\ (is_Some (dom_elems st !! t) ->
      has_class (App.observer_callback true [Entry t true] st) t "is-visible")
  /\ t ∉ observed (App.observer_callback true [Entry t true] st).
Proof.
  intros Hw. destruct (querySelector_Some_matches _ _ _ _ Hw) as (e0 & He0 & _).
  unfold App.observer_callback, App.on_entry. simpl. rewrite Hw. simpl.
  split; [|split; [|split]].
  - rewrite <- !app_assoc. reflexivity.
  - rewrite lookup_alter. case_decide.
    + subst t. rewrite lookup_alter_eq, He0. simpl. eexists. split; reflexivity.
    + rewrite lookup_alter_eq, He0. simpl. eexists. split; reflexivity.
  - intros [e He]. unfold has_class. simpl. rewrite lookup_alter_eq.
    destruct (decide (c = t)) as [->|Hne].
    + rewrite lookup_alter_eq, He. simpl. eexists. split; [reflexivity|].
      simpl. case_bool_decide; [assumption|].
      apply elem_of_app. right. apply list_elem_of_singleton. reflexivity.
    + rewrite lookup_alter_ne, He by exact Hne. simpl. eexists. split; [reflexivity|].
      simpl. case_bool_decide; [assumption|].
      apply elem_of_app. right. apply list_elem_of_singleton. reflexivity.
  - intros Hin. apply elem_of_unobserve in Hin. tauto.
Qed.

(** C3. Once the callback has applied the flag to a section with a wrapper,
    the section is no longer a target; and whatever happens afterwards
    (scrolls, frames, further batches of entries), it stays unobserved, it
    keeps the flag, and a later batch of entries for that section, intersecting
    or not, leaves the tree, every element record, the target list and the
    frame queue exactly as they were. *)
Theorem reveal_is_terminal (st : state) (t c : node) :
  element_querySelector st t (ClassSel "section-content") = Some c ->
  (t ∉ observed (App.observer_callback reduced [Entry t true] st))
  /\ forall evs : list App.event,
       (t ∉ observed (App.run reduced evs (App.observer_callback reduced [Entry t true] st)))
       /\ (is_Some (dom_elems st !! t) ->
           has_class (App.run reduced evs (App.observer_callback reduced [Entry t true] st))
                     t "is-visible")
       /\ forall entries : list entry,
            Forall (fun en => target en = t) entries ->
            same_page
              (App.observer_callback reduced entries
                 (App.run reduced evs (App.observer_callback reduced [Entry t true] st)))
              (App.run reduced evs (App.observer_callback reduced [Entry t true] st)).
Proof.
  intros Hw.
  pose proof (reveal_establishes st t c Hw) as Hrev.
  change (App.on_entry reduced (Entry t true) st)
    with (App.observer_callback reduced [Entry t true] st) in Hrev.
  split; [apply Hrev|]. intros evs.
  set (st1 := App.observer_callback reduced [Entry t true] st) in *.
  pose proof (revealed_evolves _ _ t (run_evolves evs st1) Hrev) as Hrev2.
  split; [apply Hrev2|]. split.
  - intros [e He].
    pose proof (evolves_trans _ _ _ (observer_callback_evolves [Entry t true] st)
                  (run_evolves evs st1)) as (_ & Hel & _).
    specialize (Hel t). rewrite He in Hel. fold st1 in Hel.
    destruct (dom_elems (App.run reduced evs st1) !! t) as [e'|] eqn:He'; [|contradiction].
    exists e'. split; [exact He'|]. destruct Hrev2 as (_ & Hvis & _). apply Hvis, He'.
  - intros entries Hall. apply revealed_callback_same with (t := t); assumption.
Qed.

Lemma keeps_refl (t : node) (s : state) : keeps t s s.
Proof. unfold keeps. auto. Qed.

Lemma keeps_trans (t : node) (a b c : state) : keeps t a b -> keeps t b c -> keeps t a c.
Proof.
  intros (Hc & Ho & Ht) (Hc' & Ho' & Ht'). unfold keeps.
  split; [congruence|]. split; auto.
Qed.

(** One write through [alter] that keeps the classes of [t], logged as an
    effect that does not reveal [t]. *)
Lemma keeps_write (t : node) (f : element -> element) (i : node) (eff : effect)
    (s s' : state) :
  (i = t -> forall e, classList (f e) = classList e) ->
  dom_elems s' = alter f i (dom_elems s) ->
  (t ∈ observed s -> t ∈ observed s') ->
  trace s' = (trace s ++ [eff])%list ->
  ~ flags t eff ->
  keeps t s s'.
Proof.
  intros Hf He Ho Ht Hflag. split; [|split; [exact Ho|]].
  - rewrite He, lookup_alter. case_decide as Hit; [|reflexivity].
    specialize (Hf Hit). subst i.
    destruct (dom_elems s !! t) as [e|]; simpl; [|reflexivity].
    rewrite Hf. reflexivity.
  - intros e Hin Hfl. rewrite Ht in Hin. apply elem_of_app in Hin as [Hin|Hin]; [exact Hin|].
    apply list_elem_of_singleton in Hin. subst e. contradiction.
Qed.

Lemma keeps_no_write (t : node) (eff : effect) (s s' : state) :
  dom_elems s' = dom_elems s ->
  (t ∈ observed s -> t ∈ observed s') ->
  trace s' = (trace s ++ [eff])%list ->
  ~ flags t eff ->
  keeps t s s'.
Proof.
  intros He Ho Ht Hflag. split; [rewrite He; reflexivity|]. split; [exact Ho|].
  intros e Hin Hfl. rewrite Ht in Hin. apply elem_of_app in Hin as [Hin|Hin]; [exact Hin|].
  apply list_elem_of_singleton in Hin. subst e. contradiction.
Qed.

Lemma on_entry_keeps (t : node) (en : entry) (s : state) :
  element_querySelector s t (ClassSel "section-content") = None ->
  keeps t s (App.on_entry reduced en s).
Proof.
  intros Hnone. unfold App.on_entry.
  destruct (decide (target en = t)) as [Heq|Hne].
  { rewrite Heq, Hnone. apply keeps_refl. }
  destruct (element_querySelector s (target en) _) as [c|]; [|apply keeps_refl].
  destruct (isIntersecting en); [|apply keeps_refl].
  set (s1 := if reduced then set_style_transition c "none" s else s).
  apply keeps_trans with (b := classList_add (target en) "is-visible" s1).
  - apply keeps_trans with (b := s1).
    + subst s1. destruct reduced; [|apply keeps_refl].
      apply (keeps_write t (put_transition "none") c (SetTransition c "none"));
        try reflexivity; auto.
    + apply (keeps_write t (put_class "is-visible") (target en)
               (AddClass (target en) "is-visible")); try reflexivity; auto.
      intros Heq. contradiction.
  - apply (keeps_no_write t (Unobserve (target en))); try reflexivity; [|simpl; auto].
    simpl. intros Hin. apply elem_of_unobserve. auto.
Qed.

Lemma update_elements_keeps (t : node) (y : float) (els : list node) (s : state) :
  keeps t s (foldl (fun s el => App.update_element y el s) s els).
Proof.
  revert s. induction els as [|el els IH]; intros s; simpl; [apply keeps_refl|].
  eapply keeps_trans; [|apply IH]. unfold App.update_element, set_style_transform.
  eapply (keeps_write t (put_transform _) el (SetTransform el _));
    try reflexivity; auto.
Qed.

Lemma updateParallax_keeps (t : node) (env : closure) (s : state) :
  keeps t s (App.updateParallax env s).
Proof.
  unfold App.updateParallax. destruct (JS.strict_neq _ _).
  - eapply keeps_trans; [apply update_elements_keeps|].
    apply (keeps_no_write t RequestFrame); try reflexivity; auto.
  - apply (keeps_no_write t RequestFrame); try reflexivity; auto.
Qed.

Lemma step_keeps (t : node) (ev : App.event) (s : state) :
  element_querySelector s t (ClassSel "section-content") = None ->
  keeps t s (App.step reduced s ev).
Proof.
  intros Hnone. destruct ev as [y| |entries]; simpl.
  - unfold keeps; simpl. auto.
  - unfold App.animation_frame.
    assert (Hgen : forall cbs u, keeps t u (foldl (fun s cb => App.updateParallax cb s) u cbs)).
    { induction cbs as [|cb cbs IH]; intros u; simpl; [apply keeps_refl|].
      eapply keeps_trans; [apply updateParallax_keeps | apply IH]. }
    eapply keeps_trans; [|apply Hgen]. unfold keeps; simpl. auto.
  - unfold App.observer_callback. revert s Hnone.
    induction entries as [|en entries IH]; intros s Hnone; simpl; [apply keeps_refl|].
    eapply keeps_trans; [apply on_entry_keeps, Hnone|]. apply IH.
    rewrite (evolves_wrapper _ _ t (on_entry_evolves en s)). exact Hnone.
Qed.

Lemma run_keeps (t : node) (evs : list App.event) (s : state) :
  element_querySelector s t (ClassSel "section-content") = None ->
  keeps t s (App.run reduced evs s).
Proof.
  unfold App.run. revert s.
  induction evs as [|ev evs IH]; intros s Hnone; simpl; [apply keeps_refl|].
  eapply keeps_trans; [apply step_keeps, Hnone|]. apply IH.
  rewrite (evolves_wrapper _ _ t (step_evolves ev s)). exact Hnone.
Qed.

(** C6. A section without a content wrapper is never revealed: whatever
    batches of entries the callback receives (intersecting or not, mixed with
    scrolls and frames), the section's classes stay what they were, it stays
    an observation target if it was one, the trace gains no [classList.add]
    and no [unobserve] on it, and it still has no wrapper. *)
Theorem wrapperless_section_never_revealed (st : state) (t : node)
    (evs : list App.event) :
  element_querySelector st t (ClassSel "section-content") = None ->
  classList <$> (dom_elems (App.run reduced evs st) !! t) = classList <$> (dom_elems st !! t)
  /\ (t ∈ observed st -> t ∈ observed (App.run reduced evs st))
  /\ (forall c, AddClass t c ∈ trace (App.run reduced evs st) -> AddClass t c ∈ trace st)
  /\ (Unobserve t ∈ trace (App.run reduced evs st) -> Unobserve t ∈ trace st)
  /\ element_querySelector (App.run reduced evs st) t (ClassSel "section-content") = None.
Proof.
  intros Hnone. destruct (run_keeps t evs st Hnone) as (Hc & Ho & Ht).
  split; [exact Hc|]. split; [exact Ho|]. split; [|split].
  - intros c Hin. apply Ht; [exact Hin | reflexivity].
  - intros Hin. apply Ht; [exact Hin | reflexivity].
  - rewrite (evolves_wrapper _ _ t (run_evolves evs st)). exact Hnone.
Qed.

End Reveal.

(** ** The parallax controller *)

Section Parallax.
Context `{Platform}.

Lemma evolves_dataset (s s' : state) (el : node) (name : string) :
  evolves s s' -> dataset s' el name = dataset s el name.
Proof.
  intros (_ & He & _). unfold dataset. specialize (He el).
  destruct (dom_elems s !! el), (dom_elems s' !! el); try contradiction; [|reflexivity].
  destruct He as (_ & -> & _). reflexivity.
Qed.

Lemma evolves_is_Some (s s' : state) (el : node) :
  evolves s s' -> is_Some (dom_elems s !! el) -> is_Some (dom_elems s' !! el).
Proof.
  intros (_ & He & _) [e Hel]. specialize (He el). rewrite Hel in He.
  destruct (dom_elems s' !! el); [eauto | contradiction].
Qed.

(** After the [forEach] every listed element holds the offset computed from
    its own strength attribute, and that write is in the trace. *)
Lemma update_elements_transform (y : float) (els : list node) (s : state) (el : node) :
  el ∈ els -> is_Some (dom_elems s !! el) ->
  let s' := foldl (fun s el => App.update_element y el s) s els in
  let text := offset_text y (parseFloat (JS.ToString (dataset s el "parallax"))) in
  (exists e, dom_elems s' !! el = Some e /\ style_transform e = Some text)
  /\ SetTransform el text ∈ trace s'.
Proof.
  intros Hin Hsome. cbv zeta. induction els as [|x els IH] using rev_ind.
  { apply not_elem_of_nil in Hin. contradiction. }
  rewrite foldl_snoc.
  set (s1 := foldl (fun s el => App.update_element y el s) s els) in *.
  pose proof (update_elements_evolves y els s) as Hev. fold s1 in Hev.
  destruct (decide (x = el)) as [->|Hne].
  - unfold App.update_element, set_style_transform. simpl.
    rewrite (evolves_dataset _ _ el "parallax" Hev).
    destruct (evolves_is_Some _ _ el Hev Hsome) as [e1 He1].
    split.
    + rewrite lookup_alter_eq, He1. simpl. eexists. split; reflexivity.
    + apply elem_of_app. right. apply list_elem_of_singleton. reflexivity.
  - apply elem_of_app in Hin as [Hin|Hin];
      [|apply list_elem_of_singleton in Hin; congruence].
    destruct (IH Hin) as [(e & He & Htf) Htr].
    unfold App.update_element, set_style_transform. simpl. split.
    + rewrite lookup_alter_ne by exact Hne. eauto.
    + apply elem_of_app. left. exact Htr.
Qed.

Lemma is_nan_Prim2SF (x : float) : PrimFloat.is_nan x = true -> Prim2SF x = S754_nan.
Proof. intros Hx. unfold Prim2SF. rewrite Hx. reflexivity. Qed.

(** A NaN strength survives the clamp and the two multiplications. *)
Lemma nan_offset (y s : float) :
  PrimFloat.is_nan s = true ->
  Prim2SF (y * JS.Math_min (JS.Math_max 0 s) 0.3 * -1)%float = S754_nan.
Proof.
  intros Hs.
  assert (Hclamp : JS.Math_min (JS.Math_max 0 s) 0.3 = PrimFloat.nan).
  { unfold JS.Math_max. simpl. rewrite Hs. reflexivity. }
  rewrite Hclamp, !FloatAxioms.mul_spec.
  replace (Prim2SF PrimFloat.nan) with S754_nan by reflexivity.
  destruct (Prim2SF y); reflexivity.
Qed.

Lemma nan_offset_text (y s : float) :
  PrimFloat.is_nan s = true -> offset_text y s = "translateY(NaNpx)".
Proof.
  intros Hs. unfold offset_text, JS.Number_toString.
  rewrite (nan_offset y s Hs). reflexivity.
Qed.

(** C7. On a frame whose scroll position equals the stored baseline,
    [updateParallax] writes no element record and no transform; its single
    effect is the request for the next frame, made with the same closure, so
    the baseline is not updated.  Run as the only queued callback, the frame
    leaves the queue as it found it. *)
Theorem unchanged_scroll_frame_skips (reduced : bool) (env : closure) (st : state) :
  (scrollY st =? lastScrollY env)%float = true ->
  dom_elems (App.updateParallax env st) = dom_elems st
  /\ trace (App.updateParallax env st) = (trace st ++ [RequestFrame])%list
  /\ raf_queue (App.updateParallax env st) = (raf_queue st ++ [env])%list
  /\ (raf_queue st = [env] ->
      raf_queue (App.step reduced st App.Frame) = [env]
      /\ dom_elems (App.step reduced st App.Frame) = dom_elems st
      /\ trace (App.step reduced st App.Frame) = (trace st ++ [RequestFrame])%list).
Proof.
  intros Heq.
  assert (Hskip : forall s, scrollY s = scrollY st ->
            App.updateParallax env s = requestAnimationFrame env s).
  { intros s Hs. unfold App.updateParallax, JS.strict_neq. rewrite Hs, Heq. reflexivity. }
  rewrite (Hskip st eq_refl).
  split; [reflexivity|]. split; [reflexivity|]. split; [reflexivity|].
  intros Hq. unfold App.step, App.animation_frame. rewrite Hq. simpl.
  rewrite (Hskip (with_raf_queue [] st) eq_refl). simpl. auto.
Qed.

(** C1. On a frame whose scroll position [y] differs from the baseline, every
    element of the snapshot whose [data-parallax] attribute is [a] ends the
    frame with transform [translateY(<y * min(max(0, s), 0.3) * -1>px)], where
    [s = parseFloat a]; the write is in the trace.  In particular, when [a] is
    ["0.5"] (parsed as 0.5) and [y] is 200, the transform is
    [translateY(-60px)]. *)
Theorem parallax_offset_clamped (env : closure) (st : state) (el : node) (a : string) :
  JS.strict_neq (scrollY st) (lastScrollY env) = true ->
  el ∈ parallaxElements env ->
  dataset st el "parallax" = Some a ->
  (exists e, dom_elems (App.updateParallax env st) !! el = Some e
             /\ style_transform e
                = Some ("translateY("
                        ++ JS.Number_toString shortest_digits
                             (scrollY st * JS.Math_min (JS.Math_max 0 (parseFloat a)) 0.3 * -1)%float
                        ++ "px)"))
  /\ SetTransform el
       ("translateY("
        ++ JS.Number_toString shortest_digits
             (scrollY st * JS.Math_min (JS.Math_max 0 (parseFloat a)) 0.3 * -1)%float
        ++ "px)") ∈ trace (App.updateParallax env st)
  /\ (a = "0.5" -> parseFloat "0.5" = 0.5%float -> scrollY st = 200%float ->
      exists e, dom_elems (App.updateParallax env st) !! el = Some e
                /\ style_transform e = Some "translateY(-60px)").
Proof.
  intros Hneq Hin Ha.
  assert (Hsome : is_Some (dom_elems st !! el)).
  { unfold dataset in Ha. destruct (dom_elems st !! el); [eauto | discriminate]. }
  destruct (update_elements_transform (scrollY st) _ st el Hin Hsome) as [Hset Htr].
  rewrite Ha in Hset, Htr. simpl in Hset, Htr. unfold offset_text in Hset, Htr.
  unfold App.updateParallax. rewrite Hneq. simpl.
  split; [exact Hset|]. split.
  - apply elem_of_app. left. exact Htr.
  - intros -> Hhalf Hy. destruct Hset as (e & He & Htf).
    exists e. split; [exact He|].
    rewrite Htf, Hhalf, Hy. vm_compute. reflexivity.
Qed.

(** C8. On a frame whose scroll position differs from the baseline, an
    element of the snapshot whose strength does not parse as a number
    ([parseFloat] gives NaN) gets the transform [translateY(NaNpx)]: the NaN
    goes through the clamp and the product, and the assignment is performed
    like any other (it is in the trace). *)
Theorem malformed_strength_writes_nan (env : closure) (st : state) (el : node) :
  JS.strict_neq (scrollY st) (lastScrollY env) = true ->
  el ∈ parallaxElements env ->
  is_Some (dom_elems st !! el) ->
  PrimFloat.is_nan (parseFloat (JS.ToString (dataset st el "parallax"))) = true ->
  PrimFloat.is_nan
    (scrollY st
     * JS.Math_min (JS.Math_max 0 (parseFloat (JS.ToString (dataset st el "parallax")))) 0.3
     * -1)%float = true
  /\ (exists e, dom_elems (App.updateParallax env st) !! el = Some e
                /\ style_transform e = Some "translateY(NaNpx)")
  /\ SetTransform el "translateY(NaNpx)" ∈ trace (App.updateParallax env st).
Proof.
  intros Hneq Hin Hsome Hnan.
  destruct (update_elements_transform (scrollY st) _ st el Hin Hsome) as [Hset Htr].
  rewrite (nan_offset_text _ _ Hnan) in Hset, Htr.
  unfold App.updateParallax. rewrite Hneq. simpl.
  split; [|split; [exact Hset|]].
  - pose proof (nan_offset (scrollY st) _ Hnan) as Hsf.
    unfold PrimFloat.is_nan. rewrite FloatAxioms.eqb_spec, Hsf. reflexivity.
  - apply elem_of_app. left. exact Htr.
Qed.

Lemma calm_refl (s : state) : calm s s.
Proof. unfold calm. eauto. Qed.

Lemma calm_trans (a b c : state) : calm a b -> calm b c -> calm a c.
Proof.
  intros (Hq & He & Ht) (Hq' & He' & Ht'). split; [congruence|]. split; [|auto].
  intros el e Hel. destruct (He el e Hel) as (e1 & He1 & Htf1).
  destruct (He' el e1 He1) as (e2 & He2 & Htf2). exists e2. split; [exact He2 | congruence].
Qed.

Lemma calm_no_write (eff : effect) (s s' : state) :
  dom_elems s' = dom_elems s ->
  raf_queue s' = raf_queue s ->
  trace s' = (trace s ++ [eff])%list ->
  ~ animates eff ->
  calm s s'.
Proof.
  intros He Hq Ht Hna. split; [exact Hq|]. split.
  - intros el e Hel. rewrite He. eauto.
  - intros e Hin Han. rewrite Ht in Hin. apply elem_of_app in Hin as [Hin|Hin]; [exact Hin|].
    apply list_elem_of_singleton in Hin. subst e. contradiction.
Qed.

Lemma calm_write (f : element -> element) (i : node) (eff : effect) (s s' : state) :
  (forall e, style_transform (f e) = style_transform e) ->
  dom_elems s' = alter f i (dom_elems s) ->
  raf_queue s' = raf_queue s ->
  trace s' = (trace s ++ [eff])%list ->
  ~ animates eff ->
  calm s s'.
Proof.
  intros Hf He Hq Ht Hna. split; [exact Hq|]. split.
  - intros el e Hel. rewrite He, lookup_alter. case_decide as Hi.
    + subst i. rewrite Hel. simpl. eauto.
    + eauto.
  - intros e Hin Han. rewrite Ht in Hin. apply elem_of_app in Hin as [Hin|Hin]; [exact Hin|].
    apply list_elem_of_singleton in Hin. subst e. contradiction.
Qed.

Lemma on_entry_calm (reduced : bool) (en : entry) (s : state) :
  calm s (App.on_entry reduced en s).
Proof.
  unfold App.on_entry.
  destruct (element_querySelector s (target en) _) as [c|]; [|apply calm_refl].
  destruct (isIntersecting en); [|apply calm_refl].
  set (s1 := if reduced then set_style_transition c "none" s else s).
  apply calm_trans with (b := classList_add (target en) "is-visible" s1).
  - apply calm_trans with (b := s1).
    + subst s1. destruct reduced; [|apply calm_refl].
      apply (calm_write (put_transition "none") c (SetTransition c "none"));
        try reflexivity; auto.
    + apply (calm_write (put_class "is-visible") (target en)
               (AddClass (target en) "is-visible")); try reflexivity; auto.
  - apply (calm_no_write (Unobserve (target en))); try reflexivity; auto.
Qed.

Lemma observer_callback_calm (reduced : bool) (entries : list entry) (s : state) :
  calm s (App.observer_callback reduced entries s).
Proof.
  unfold App.observer_callback. revert s.
  induction entries as [|en entries IH]; intros s; simpl; [apply calm_refl|].
  eapply calm_trans; [apply on_entry_calm | apply IH].
Qed.

(** With an empty frame queue a display refresh runs no callback. *)
Lemma step_calm (reduced : bool) (ev : App.event) (s : state) :
  raf_queue s = [] -> calm s (App.step reduced s ev).
Proof.
  intros Hq. destruct ev as [y| |entries]; simpl.
  - unfold calm; simpl. eauto.
  - unfold App.animation_frame. rewrite Hq. unfold calm; simpl. eauto.
  - apply observer_callback_calm.
Qed.

Lemma run_calm (reduced : bool) (evs : list App.event) (s : state) :
  raf_queue s = [] -> calm s (App.run reduced evs s).
Proof.
  unfold App.run. revert s.
  induction evs as [|ev evs IH]; intros s Hq; simpl; [apply calm_refl|].
  pose proof (step_calm reduced ev s Hq) as Hstep.
  eapply calm_trans; [exact Hstep|]. apply IH.
  destruct Hstep as (-> & _). exact Hq.
Qed.

Lemma load360ViewerScript_calm (s : state) : calm s (App.load360ViewerScript s).
Proof.
  unfold App.load360ViewerScript.
  destruct (document_querySelector s _) as [pano|];
    [|apply (calm_no_write (ConsoleLog App.skipped_message)); try reflexivity; auto].
  cbv zeta. unfold set_innerHTML. destruct (parse_fragment _ _) as [kids records].
  split; [reflexivity|]. split.
  - intros el e Hel. simpl.
    destruct (decide (pano = el)) as [->|Hne].
    + eexists. split; [apply lookup_union_Some_l; rewrite lookup_alter_eq, Hel|];
        reflexivity.
    + exists e. split; [|reflexivity].
      apply lookup_union_Some_l. rewrite lookup_alter_ne by exact Hne. exact Hel.
  - simpl. intros e Hin Han.
    apply elem_of_app in Hin as [Hin|Hin];
      [|apply list_elem_of_singleton in Hin; subst e; contradiction].
    apply elem_of_app in Hin as [Hin|Hin]; [exact Hin|].
    apply list_elem_of_singleton in Hin. subst e. contradiction.
Qed.

Lemma setupIntersectionObserver_calm (s : state) : calm s (App.setupIntersectionObserver s).
Proof.
  unfold App.setupIntersectionObserver.
  generalize (document_querySelectorAll s (TypeSel "section")). intros sections.
  eapply calm_trans.
  - apply (calm_no_write (NewObserver App.observerRootMargin 0)
             s (new_IntersectionObserver App.observerRootMargin 0 s));
      try reflexivity; auto.
  - generalize (new_IntersectionObserver App.observerRootMargin 0 s). clear s.
    induction sections as [|x sections IH]; intros s; simpl; [apply calm_refl|].
    eapply calm_trans; [|apply IH].
    apply (calm_no_write (Observe x)); try reflexivity; auto.
Qed.

(** C2. With the reduced-motion preference set, [setupParallax] is one console
    message and nothing else (no element is enumerated, no frame requested).
    From page load on, whatever scrolls, display refreshes and observer
    batches follow, the frame queue stays empty, the trace holds no transform
    assignment and no frame request, and every element of the page keeps the
    transform it had. *)
Theorem reduced_motion_never_animates (t : tree) (elems : gmap node element)
    (y : float) (evs : list App.event) :
  (forall st, App.setupParallax true st = console_log App.parallax_disabled_message st)
  /\ raf_queue (App.run true evs (App.onload true (initial_state t elems y))) = []
  /\ (forall e, e ∈ trace (App.run true evs (App.onload true (initial_state t elems y))) ->
                ~ animates e)
  /\ (forall el e, elems !! el = Some e ->
        exists e', dom_elems (App.run true evs (App.onload true (initial_state t elems y)))
                     !! el = Some e'
                   /\ style_transform e' = style_transform e).
Proof.
  split; [reflexivity|].
  set (st0 := initial_state t elems y).
  assert (Hload : calm st0 (App.onload true st0)).
  { unfold App.onload. eapply calm_trans; [apply load360ViewerScript_calm|].
    eapply calm_trans; [apply setupIntersectionObserver_calm|].
    apply (calm_no_write (ConsoleLog App.parallax_disabled_message)); try reflexivity; auto. }
  assert (Hq : raf_queue (App.onload true st0) = []) by (destruct Hload as (-> & _); reflexivity).
  pose proof (calm_trans _ _ _ Hload (run_calm true evs _ Hq)) as (Hqueue & Hel & Htr).
  split; [rewrite Hqueue; reflexivity|]. split.
  - intros e Hin Han. specialize (Htr e Hin Han). apply not_elem_of_nil in Htr. exact Htr.
  - intros el e He. apply Hel. exact He.
Qed.

End Parallax.

(** ** The two reveal controllers *)

(** C10, as stated, fails: on the sample page the second section is a
    ['section'] element without the class ['gw-chapter'], so [src/app.js]
    observes it and [src/unnamed/part_000] does not. *)
Lemma reveal_controllers_differ :
  ~ (forall (st : state) (x : node),
       x ∈ observed (App.setupIntersectionObserver st)
       <-> x ∈ observed (Part000.setupIntersectionObserver st)).
Proof.
  intros Hall. specialize (Hall Sample.page 3).
  assert (Happ : observed (App.setupIntersectionObserver Sample.page) = [1; 3])
    by (vm_compute; reflexivity).
  assert (Hpart : observed (Part000.setupIntersectionObserver Sample.page) = [1])
    by (vm_compute; reflexivity).
  rewrite Happ, Hpart in Hall.
  assert (Hin : 3 ∈ [1; 3]) by (apply list_elem_of_further, list_elem_of_here).
  apply Hall in Hin. apply list_elem_of_singleton in Hin. discriminate Hin.
Qed.

(** C10, amended. The observer callbacks of the two files have the same
    effect on every batch of entries and every state; and on a document whose
    elements are ['section'] elements exactly when they carry the class
    ['gw-chapter'], the two [setupIntersectionObserver] build the same
    observer with the same targets in the same order. *)
Theorem reveal_controllers_agree_on_chapters (st : state) :
  Forall (fun i => el_matches st (ClassSel "gw-chapter") i
                   = el_matches st (TypeSel "section") i)
         (preorder (dom_tree st)) ->
  Part000.setupIntersectionObserver st = App.setupIntersectionObserver st
  /\ (forall (reduced : bool) (entries : list entry) (s : state),
        Part000.observer_callback reduced entries s
        = App.observer_callback reduced entries s).
Proof.
  intros Hsame. split; [|reflexivity].
  unfold Part000.setupIntersectionObserver, App.setupIntersectionObserver.
  assert (Hq : document_querySelectorAll st (ClassSel "gw-chapter")
               = document_querySelectorAll st (TypeSel "section")).
  { unfold document_querySelectorAll.
    induction (preorder (dom_tree st)) as [|i l IH]; [reflexivity|].
    apply Forall_cons in Hsame as [Hi Hl]. simpl. rewrite Hi, (IH Hl). reflexivity. }
  rewrite Hq. reflexivity.
Qed.

(** ** The theorems at the sample page *)

Example sample_session :
  trace (@App.run Reference.platform false
           [App.Frame; App.Scroll 200; App.Frame; App.Intersection [Entry 1 true; Entry 3 true]]
           (@App.onload Reference.platform false Sample.page))
  = [ConsoleLog App.found_message;
     SetInnerHTML 4 (App.confirmation_markup "pano.jpg");
     NewObserver "0px 0px -50% 0px" 0;
     Observe 1; Observe 3;
     ConsoleLog App.parallax_active_message;
     RequestFrame;
     RequestFrame;
     SetTransform 3 "translateY(-60px)";
     RequestFrame;
     AddClass 1 "is-visible";
     Unobserve 1].
Proof. vm_compute. reflexivity. Qed.

Example sample_session_reduced :
  trace (@App.run Reference.platform true
           [App.Frame; App.Scroll 200; App.Frame; App.Intersection [Entry 1 true; Entry 1 true]]
           (@App.onload Reference.platform true Sample.bare))
  = [ConsoleLog App.skipped_message;
     NewObserver "0px 0px -50% 0px" 0;
     Observe 1; Observe 3;
     ConsoleLog App.parallax_disabled_message;
     SetTransition 2 "none"; AddClass 1 "is-visible"; Unobserve 1;
     SetTransition 2 "none"; AddClass 1 "is-visible"; Unobserve 1].
Proof. vm_compute. reflexivity. Qed.

Lemma parallax_offset_clamped_witness :
  exists e,
    dom_elems (@App.updateParallax Reference.platform (Closure [3] 0)
                 (with_scrollY 200 Sample.page)) !! 3 = Some e
    /\ style_transform e = Some "translateY(-60px)".
Proof.
  refine (proj2 (proj2 (@parallax_offset_clamped Reference.platform (Closure [3] 0)
                          (with_scrollY 200 Sample.page) 3 "0.5" _ _ _)) _ _ _);
    try (vm_compute; reflexivity).
  apply list_elem_of_here.
Defined.

Lemma malformed_strength_writes_nan_witness :
  SetTransform 3 "translateY(NaNpx)"
  ∈ trace (@App.updateParallax Reference.platform (Closure [3] 0)
             (with_scrollY 200 Sample.broken)).
Proof.
  refine (proj2 (proj2 (@malformed_strength_writes_nan Reference.platform (Closure [3] 0)
                          (with_scrollY 200 Sample.broken) 3 _ _ _ _)));
    try (vm_compute; reflexivity).
  - apply list_elem_of_here.
  - eexists. vm_compute. reflexivity.
Defined.

Lemma unchanged_scroll_frame_skips_witness :
  trace (@App.updateParallax Reference.platform (Closure [3] 0) Sample.page)
  = [RequestFrame].
Proof.
  refine (proj1 (proj2 (@unchanged_scroll_frame_skips Reference.platform false
                          (Closure [3] 0) Sample.page _))).
  vm_compute. reflexivity.
Defined.

Lemma reduced_reveal_order_witness :
  trace (App.observer_callback true [Entry 1 true] Sample.page)
  = [SetTransition 2 "none"; AddClass 1 "is-visible"; Unobserve 1].
Proof.
  refine (proj1 (reduced_reveal_order Sample.page 1 2 _)).
  vm_compute. reflexivity.
Defined.

Lemma reveal_is_terminal_witness :
  1 ∉ observed (App.observer_callback false [Entry 1 true]
                  (App.setupIntersectionObserver Sample.page)).
Proof.
  refine (proj1 (@reveal_is_terminal Reference.platform false
                   (App.setupIntersectionObserver Sample.page) 1 2 _)).
  vm_compute. reflexivity.
Defined.

Lemma wrapperless_section_never_revealed_witness :
  3 ∈ observed (@App.run Reference.platform false [App.Intersection [Entry 3 true]]
                  (App.setupIntersectionObserver Sample.page)).
Proof.
  refine (proj1 (proj2 (@wrapperless_section_never_revealed Reference.platform false
                          (App.setupIntersectionObserver Sample.page) 3
                          [App.Intersection [Entry 3 true]] _)) _).
  - vm_compute. reflexivity.
  - replace (observed (App.setupIntersectionObserver Sample.page)) with [1; 3]
      by (vm_compute; reflexivity).
    apply list_elem_of_further, list_elem_of_here.
Defined.

Lemma reveal_controllers_agree_on_chapters_witness :
  Part000.setupIntersectionObserver Sample.chapters
  = App.setupIntersectionObserver Sample.chapters.
Proof.
  refine (proj1 (reveal_controllers_agree_on_chapters Sample.chapters _)).
  vm_compute. repeat constructor.
Defined.

(** ** Further properties: startup *)

Section Startup.
Context `{Platform}.

Lemma observe_all_page (l : list node) (s : state) :
  dom_tree (foldl (fun s x => observe x s) s l) = dom_tree s
  /\ dom_elems (foldl (fun s x => observe x s) s l) = dom_elems s
  /\ scrollY (foldl (fun s x => observe x s) s l) = scrollY s
  /\ raf_queue (foldl (fun s x => observe x s) s l) = raf_queue s.
Proof.
  revert s. induction l as [|x l IH]; intros s; simpl; [auto|].
  destruct (IH (observe x s)) as (-> & -> & -> & ->). auto.
Qed.

Lemma observe_all_trace (l : list node) (s : state) :
  trace (foldl (fun s x => observe x s) s l) = (trace s ++ map Observe l)%list.
Proof.
  revert s. induction l as [|x l IH]; intros s; simpl; [by rewrite app_nil_r|].
  rewrite IH. simpl. rewrite <- app_assoc. reflexivity.
Qed.

Lemma observe_all_elem (l : list node) (s : state) (x : node) :
  x ∈ observed (foldl (fun s x => observe x s) s l) <-> x ∈ observed s \/ x ∈ l.
Proof.
  revert s. induction l as [|y l IH]; intros s; simpl.
  - split; [auto|]. intros [Hx|Hx]; [exact Hx|]. apply not_elem_of_nil in Hx. contradiction.
  - rewrite IH. simpl. rewrite elem_of_cons. case_bool_decide as Hy.
    + split; [tauto|]. intros [Hx|[->|Hx]]; auto.
    + rewrite elem_of_app, list_elem_of_singleton. tauto.
Qed.

Lemma observe_all_fresh (l : list node) (s : state) :
  NoDup l -> (forall x, x ∈ l -> x ∉ observed s) ->
  observed (foldl (fun s x => observe x s) s l) = (observed s ++ l)%list.
Proof.
  revert s. induction l as [|y l IH]; intros s Hnd Hfresh; simpl; [by rewrite app_nil_r|].
  apply NoDup_cons in Hnd as [Hy Hnd].
  rewrite IH; [|exact Hnd|].
  - simpl. rewrite bool_decide_eq_false_2 by (apply Hfresh; left).
    rewrite <- app_assoc. reflexivity.
  - intros x Hx. simpl. rewrite bool_decide_eq_false_2 by (apply Hfresh; left).
    intros Hin. apply elem_of_app in Hin as [Hin|Hin].
    + apply (Hfresh x); [right; exact Hx | exact Hin].
    + apply list_elem_of_singleton in Hin. subst x. contradiction.
Qed.

Lemma querySelectorAll_NoDup (st : state) (sel : selector) :
  NoDup (preorder (dom_tree st)) -> NoDup (document_querySelectorAll st sel).
Proof.
  intros Hnd. unfold document_querySelectorAll.
  apply NoDup_ListNoDup, List.NoDup_filter, NoDup_ListNoDup, Hnd.
Qed.

(** Whatever selector picks the sections, the new observer ends up with
    exactly the picked elements, in document order. *)
Lemma observe_selected (st : state) (margin : string) (sel : selector) :
  NoDup (preorder (dom_tree st)) ->
  observed (foldl (fun s x => observe x s) (new_IntersectionObserver margin 0 st)
                  (document_querySelectorAll st sel))
  = document_querySelectorAll st sel.
Proof.
  intros Hnd. rewrite observe_all_fresh.
  - reflexivity.
  - apply querySelectorAll_NoDup, Hnd.
  - intros x _. simpl. apply not_elem_of_nil.
Qed.

(** X1. In a document whose nodes are distinct, [setupIntersectionObserver]
    of [src/app.js] leaves the observer with exactly the ['section'] elements
    as targets, in document order, whatever was observed before; it logs the
    constructor call (margin ['0px 0px -50% 0px'], threshold 0) and one
    [observe] per section, and touches neither tree, records, scroll position
    nor frame queue. *)
Theorem setup_observes_sections_in_order (st : state) :
  NoDup (preorder (dom_tree st)) ->
  observed (App.setupIntersectionObserver st)
  = document_querySelectorAll st (TypeSel "section")
  /\ trace (App.setupIntersectionObserver st)
     = (trace st ++ NewObserver "0px 0px -50% 0px" 0
                    :: map Observe (document_querySelectorAll st (TypeSel "section")))%list
  /\ dom_tree (App.setupIntersectionObserver st) = dom_tree st
  /\ dom_elems (App.setupIntersectionObserver st) = dom_elems st
  /\ scrollY (App.setupIntersectionObserver st) = scrollY st
  /\ raf_queue (App.setupIntersectionObserver st) = raf_queue st.
Proof.
  intros Hnd. unfold App.setupIntersectionObserver.
  split; [apply observe_selected, Hnd|]. split.
  - rewrite observe_all_trace. simpl. rewrite <- app_assoc. reflexivity.
  - apply (observe_all_page _ (new_IntersectionObserver App.observerRootMargin 0 st)).
Qed.

(** X2. The same for [src/unnamed/part_000], whose targets are exactly the
    ['.gw-chapter'] elements, in document order. *)
Theorem part000_setup_observes_chapters_in_order (st : state) :
  NoDup (preorder (dom_tree st)) ->
  observed (Part000.setupIntersectionObserver st)
  = document_querySelectorAll st (ClassSel "gw-chapter")
  /\ trace (Part000.setupIntersectionObserver st)
     = (trace st ++ NewObserver "0px 0px -50% 0px" 0
                    :: map Observe (document_querySelectorAll st (ClassSel "gw-chapter")))%list
  /\ dom_tree (Part000.setupIntersectionObserver st) = dom_tree st
  /\ dom_elems (Part000.setupIntersectionObserver st) = dom_elems st
  /\ scrollY (Part000.setupIntersectionObserver st) = scrollY st
  /\ raf_queue (Part000.setupIntersectionObserver st) = raf_queue st.
Proof.
  intros Hnd. unfold Part000.setupIntersectionObserver.
  split; [apply observe_selected, Hnd|]. split.
  - rewrite observe_all_trace. simpl. rewrite <- app_assoc. reflexivity.
  - apply (observe_all_page _ (new_IntersectionObserver Part000.observerRootMargin 0 st)).
Qed.

(** X3. [window.onload] runs the loader first: the observer and the parallax
    controller both enumerate the document as the loader left it.  The trace
    of [onload] is the loader's, then the observer's constructor and one
    [observe] per section of that document, then the parallax message (and
    the first frame request unless motion is reduced); the targets are the
    sections of that document; the frame queue gains one callback holding
    the [data-parallax] elements of that document and the current scroll
    position, or nothing under reduced motion. *)
Theorem onload_enumerates_after_loader (reduced : bool) (st : state) :
  trace (App.onload reduced st)
  = (trace (App.load360ViewerScript st)
     ++ NewObserver "0px 0px -50% 0px" 0
        :: map Observe (document_querySelectorAll (App.load360ViewerScript st)
                          (TypeSel "section"))
     ++ (if reduced then [ConsoleLog App.parallax_disabled_message]
         else [ConsoleLog App.parallax_active_message; RequestFrame]))%list
  /\ (forall x, x ∈ observed (App.onload reduced st)
                <-> x ∈ document_querySelectorAll (App.load360ViewerScript st)
                                                  (TypeSel "section"))
  /\ raf_queue (App.onload reduced st)
     = (raf_queue st
        ++ (if reduced then []
            else [Closure (document_querySelectorAll (App.load360ViewerScript st)
                             (HasAttrSel "data-parallax"))
                          (scrollY st)]))%list.
Proof.
  set (st1 := App.load360ViewerScript st).
  assert (Hq1 : raf_queue st1 = raf_queue st /\ scrollY st1 = scrollY st).
  { subst st1. unfold App.load360ViewerScript.
    destruct (document_querySelector st _); [|auto].
    cbv zeta. unfold set_innerHTML. destruct (parse_fragment _ _). auto. }
  destruct Hq1 as [Hq1 Hy1].
  unfold App.onload. fold st1.
  set (st2 := App.setupIntersectionObserver st1).
  assert (Htr2 : trace st2
                 = (trace st1 ++ NewObserver "0px 0px -50% 0px" 0
                      :: map Observe (document_querySelectorAll st1 (TypeSel "section")))%list).
  { subst st2. unfold App.setupIntersectionObserver. rewrite observe_all_trace.
    simpl. rewrite <- app_assoc. reflexivity. }
  destruct (observe_all_page (document_querySelectorAll st1 (TypeSel "section"))
              (new_IntersectionObserver App.observerRootMargin 0 st1))
    as (Ht2 & He2 & Hy2 & Hq2).
  change (foldl _ _ _) with st2 in Ht2, He2, Hy2, Hq2. simpl in Ht2, He2, Hy2, Hq2.
  assert (Hobs : forall x, x ∈ observed st2
                 <-> x ∈ document_querySelectorAll st1 (TypeSel "section")).
  { intros x. subst st2. unfold App.setupIntersectionObserver.
    rewrite observe_all_elem. simpl. split; [|auto].
    intros [Hx|Hx]; [apply not_elem_of_nil in Hx; contradiction | exact Hx]. }
  assert (Hqsa : document_querySelectorAll st2 (HasAttrSel "data-parallax")
                 = document_querySelectorAll st1 (HasAttrSel "data-parallax")).
  { unfold document_querySelectorAll, el_matches. rewrite Ht2, He2. reflexivity. }
  unfold App.setupParallax. destruct reduced; simpl.
  - rewrite Htr2, Hq2, Hq1, app_nil_r.
    split; [|split; [exact Hobs | reflexivity]].
    rewrite <- !app_assoc. reflexivity.
  - rewrite Htr2, Hq2, Hq1, Hqsa, Hy2, Hy1.
    split; [|split; [exact Hobs | reflexivity]].
    rewrite <- !app_assoc. reflexivity.
Qed.

End Startup.

(** ** Further properties: the loader *)

Section LoaderMore.
Context `{Platform}.

Lemma document_querySelector_Some (st : state) (sel : selector) (el : node) :
  document_querySelector st sel = Some el ->
  exists e, dom_elems st !! el = Some e /\ matches sel e = true.
Proof.
  unfold document_querySelector, document_querySelectorAll. intros Hhd.
  apply head_Some_elem_of, list_elem_of_In, filter_In in Hhd as [_ Hm].
  unfold el_matches in Hm. destruct (dom_elems st !! el) as [e|]; [|discriminate].
  exists e. auto.
Qed.

Lemma load_found (st : state) (pano : node) :
  document_querySelector st (ClassSel "gw-pano") = Some pano ->
  App.load360ViewerScript st
  = set_innerHTML pano
      ("<p class=" ++ dquote ++ "text-lg text-indigo-700 font-semibold" ++ dquote
       ++ ">360 Viewer Initialized! (Source: " ++ JS.ToString (dataset st pano "src")
       ++ ")</p>")
      (console_log App.found_message st).
Proof. intros Hq. unfold App.load360ViewerScript. rewrite Hq. reflexivity. Qed.

Lemma set_innerHTML_record (el : node) (markup : string) (st : state) (e : element) :
  dom_elems st !! el = Some e ->
  dom_elems (set_innerHTML el markup st) !! el = Some (put_innerHTML markup e).
Proof.
  intros He. unfold set_innerHTML. destruct (parse_fragment _ _) as [kids records].
  simpl. apply lookup_union_Some_l. rewrite lookup_alter_eq, He. reflexivity.
Qed.

Lemma set_innerHTML_other (el other : node) (markup : string) (st : state) (e : element) :
  other <> el ->
  dom_elems st !! other = Some e ->
  dom_elems (set_innerHTML el markup st) !! other = Some e.
Proof.
  intros Hne He. unfold set_innerHTML. destruct (parse_fragment _ _) as [kids records].
  simpl. apply lookup_union_Some_l. rewrite lookup_alter_ne by congruence. exact He.
Qed.

Lemma set_innerHTML_tree (el : node) (markup : string) (st : state) :
  dom_tree (set_innerHTML el markup st)
  = replace_kids el (parse_fragment markup (fresh_node st)).1 (dom_tree st).
Proof.
  unfold set_innerHTML. destruct (parse_fragment _ _) as [kids records]. reflexivity.
Qed.

Lemma set_innerHTML_rest (el : node) (markup : string) (st : state) :
  trace (set_innerHTML el markup st) = (trace st ++ [SetInnerHTML el markup])%list
  /\ observed (set_innerHTML el markup st) = observed st
  /\ raf_queue (set_innerHTML el markup st) = raf_queue st
  /\ scrollY (set_innerHTML el markup st) = scrollY st.
Proof.
  unfold set_innerHTML. destruct (parse_fragment _ _) as [kids records]. auto.
Qed.

(** X4. A mount without a [data-src] attribute still gets its content
    replaced: [dataset.src] is [undefined], so the markup assigned is
    [<p class="text-lg text-indigo-700 font-semibold">360 Viewer Initialized!
    (Source: undefined)</p>]; the mount's children become the nodes parsed
    from it, and in an ordinary container the content read back is exactly
    that markup. *)
Theorem load_mount_without_src (st : state) (pano : node) :
  document_querySelector st (ClassSel "gw-pano") = Some pano ->
  dataset st pano "src" = None ->
  let markup :=
    "<p class=" ++ dquote ++ "text-lg text-indigo-700 font-semibold" ++ dquote
    ++ ">360 Viewer Initialized! (Source: undefined)</p>" in
  (exists e, dom_elems (App.load360ViewerScript st) !! pano = Some e
             /\ innerHTML e = Some markup)
  /\ trace (App.load360ViewerScript st)
     = (trace st ++ [ConsoleLog App.found_message; SetInnerHTML pano markup])%list
  /\ subtree pano (dom_tree (App.load360ViewerScript st))
     = Some (Node pano (parse_fragment markup (fresh_node st)).1)
  /\ (forall e0, dom_elems st !! pano = Some e0 ->
       HTML.ordinary_context (localName e0) = true ->
       innerHTML_get (App.load360ViewerScript st) pano = Some markup).
Proof.
  intros Hq Hsrc markup.
  destruct (querySelector_in_tree _ _ _ Hq) as (Hin & e & He & _).
  assert (Hload : App.load360ViewerScript st
                  = set_innerHTML pano markup (console_log App.found_message st)).
  { rewrite (load_found _ _ Hq), Hsrc. reflexivity. }
  assert (Hrec : dom_elems (App.load360ViewerScript st) !! pano
                 = Some (put_innerHTML markup e)).
  { rewrite Hload. apply set_innerHTML_record. exact He. }
  split; [exists (put_innerHTML markup e); split; [exact Hrec | reflexivity]|].
  split.
  { rewrite Hload. destruct (set_innerHTML_rest pano markup
                               (console_log App.found_message st)) as [-> _].
    simpl. rewrite <- app_assoc. reflexivity. }
  split.
  { rewrite Hload, set_innerHTML_tree. apply subtree_replace_kids. exact Hin. }
  intros e0 He0 Hctx. rewrite He in He0. injection He0 as <-.
  unfold innerHTML_get. rewrite Hrec.
  cbn [put_innerHTML localName innerHTML]. rewrite Hctx.
  change markup
    with ("<p class=" ++ dquote ++ "text-lg text-indigo-700 font-semibold" ++ dquote
          ++ ">" ++ "360 Viewer Initialized! (Source: undefined)" ++ "</p>").
  rewrite reserialize_paragraph by reflexivity. reflexivity.
Qed.

(** X5. The loader replaces the content of the mount and touches nothing
    else.  In a document of distinct nodes the tree after the load is the
    tree before but for the children of the mount, which are the nodes parsed
    from the markup; every element that was there is still there with its
    name, classes, attributes and inline styles, and keeps its whole record
    unless it is the mount (a second ['.gw-pano'] keeps it); targets, frame
    queue and scroll position are untouched. *)
Theorem load_touches_only_mount_content (st : state) (pano : node) :
  document_querySelector st (ClassSel "gw-pano") = Some pano ->
  NoDup (preorder (dom_tree st)) ->
  let markup :=
    "<p class=" ++ dquote ++ "text-lg text-indigo-700 font-semibold" ++ dquote
    ++ ">360 Viewer Initialized! (Source: " ++ JS.ToString (dataset st pano "src")
    ++ ")</p>" in
  content_replaced pano (parse_fragment markup (fresh_node st)).1
    (dom_tree st) (dom_tree (App.load360ViewerScript st))
  /\ (forall el e, dom_elems st !! el = Some e ->
       exists e', dom_elems (App.load360ViewerScript st) !! el = Some e'
                  /\ localName e' = localName e /\ classList e' = classList e
                  /\ attributes e' = attributes e
                  /\ style_transition e' = style_transition e
                  /\ style_transform e' = style_transform e
                  /\ (el <> pano -> e' = e))
  /\ observed (App.load360ViewerScript st) = observed st
  /\ raf_queue (App.load360ViewerScript st) = raf_queue st
  /\ scrollY (App.load360ViewerScript st) = scrollY st.
Proof.
  intros Hq Hnd markup.
  destruct (querySelector_in_tree _ _ _ Hq) as (Hin & _).
  rewrite (load_found _ _ Hq). fold markup.
  destruct (set_innerHTML_rest pano markup (console_log App.found_message st))
    as (_ & Ho & Hf & Hy).
  split.
  { rewrite set_innerHTML_tree.
    apply (replace_kids_content_replaced pano _ (dom_tree st) Hin Hnd). }
  split; [|auto].
  intros el e He. destruct (decide (el = pano)) as [->|Hne].
  - exists (put_innerHTML markup e).
    split; [apply set_innerHTML_record; exact He|].
    repeat split; try reflexivity. intros Hneq. contradiction.
  - exists e. split; [apply set_innerHTML_other; [exact Hne | exact He]|]. auto 10.
Qed.

End LoaderMore.

(** ** Further properties: the parallax loop *)

Section ParallaxMore.
Context `{Platform}.

Lemma update_elements_fields (y : float) (els : list node) (s : state) :
  dom_tree (foldl (fun s el => App.update_element y el s) s els) = dom_tree s
  /\ observed (foldl (fun s el => App.update_element y el s) s els) = observed s
  /\ scrollY (foldl (fun s el => App.update_element y el s) s els) = scrollY s
  /\ raf_queue (foldl (fun s el => App.update_element y el s) s els) = raf_queue s.
Proof.
  revert s. induction els as [|x els IH]; intros s; simpl; [auto|].
  destruct (IH (App.update_element y x s)) as (-> & -> & -> & ->). auto.
Qed.






(** What one callback leaves in the queue: itself with the same snapshot,
    and a baseline that equals the scroll position (unless that is NaN). *)
Lemma updateParallax_queue (env : closure) (s : state) :
  exists env',
    raf_queue (App.updateParallax env s) = (raf_queue s ++ [env'])%list
    /\ parallaxElements env' = parallaxElements env
    /\ scrollY (App.updateParallax env s) = scrollY s
    /\ ((scrollY s =? lastScrollY env')%float = true
        \/ PrimFloat.is_nan (scrollY s) = true).
Proof.
  unfold App.updateParallax, JS.strict_neq.
  destruct (scrollY s =? lastScrollY env)%float eqn:Heq; simpl.
  - exists env. auto.
  - destruct (update_elements_fields (scrollY s) (parallaxElements env) s)
      as (_ & _ & Hy & Hq).
    eexists. rewrite Hq, Hy. split; [reflexivity|]. split; [reflexivity|].
    split; [reflexivity|]. simpl. unfold PrimFloat.is_nan.
    destruct (scrollY s =? scrollY s)%float; auto.
Qed.

Lemma frame_queue (reduced : bool) (env : closure) (s : state) :
  raf_queue s = [env] ->
  exists env',
    raf_queue (App.step reduced s App.Frame) = [env']
    /\ parallaxElements env' = parallaxElements env
    /\ scrollY (App.step reduced s App.Frame) = scrollY s
    /\ ((scrollY s =? lastScrollY env')%float = true
        \/ PrimFloat.is_nan (scrollY s) = true).
Proof.
  intros Hq. simpl. unfold App.animation_frame. rewrite Hq. simpl.
  destruct (updateParallax_queue env (with_raf_queue [] s)) as (env' & Hq' & Hp & Hy & Hb).
  exists env'. rewrite Hq'. auto.
Qed.

Lemma step_queue (reduced : bool) (ev : App.event) (env : closure) (s : state) :
  raf_queue s = [env] ->
  exists env', raf_queue (App.step reduced s ev) = [env']
               /\ parallaxElements env' = parallaxElements env.
Proof.
  intros Hq. destruct ev as [y| |entries].
  - exists env. auto.
  - destruct (frame_queue reduced env s Hq) as (env' & Hq' & Hp & _). eauto.
  - exists env. split; [|reflexivity]. simpl.
    destruct (observer_callback_calm reduced entries s) as (-> & _). exact Hq.
Qed.

(** X7. Without reduced motion the loop runs for the life of the page with
    exactly one callback: after [onload] and any scrolls, frames and observer
    batches, the frame queue holds one callback, and its snapshot is still
    the list of [data-parallax] elements of the document as the loader left
    it. *)
Theorem parallax_loop_keeps_one_callback (t : tree) (elems : gmap node element)
    (y : float) (evs : list App.event) :
  exists env,
    raf_queue (App.run false evs (App.onload false (initial_state t elems y))) = [env]
    /\ parallaxElements env
       = document_querySelectorAll (App.load360ViewerScript (initial_state t elems y))
                                   (HasAttrSel "data-parallax").
Proof.
  set (st0 := initial_state t elems y).
  set (P := document_querySelectorAll (App.load360ViewerScript st0) (HasAttrSel "data-parallax")).
  assert (Hstart : exists env, raf_queue (App.onload false st0) = [env]
                               /\ parallaxElements env = P).
  { unfold App.onload, App.setupParallax. simpl.
    destruct (observe_all_page
                (document_querySelectorAll (App.load360ViewerScript st0) (TypeSel "section"))
                (new_IntersectionObserver App.observerRootMargin 0
                   (App.load360ViewerScript st0))) as (Ht & He & _ & Hq).
    change (foldl _ _ _) with (App.setupIntersectionObserver (App.load360ViewerScript st0))
      in Ht, He, Hq.
    simpl in Ht, He, Hq. rewrite Hq.
    assert (Hq0 : raf_queue (App.load360ViewerScript st0) = []).
    { unfold App.load360ViewerScript. destruct (document_querySelector st0 _); [|reflexivity].
      cbv zeta. unfold set_innerHTML. destruct (parse_fragment _ _). reflexivity. }
    rewrite Hq0. eexists. split; [reflexivity|]. simpl.
    unfold P, document_querySelectorAll, el_matches. rewrite Ht, He. reflexivity. }
  generalize dependent (App.onload false st0). intros s Hs. unfold App.run.
  revert s Hs. induction evs as [|ev evs IH]; intros s Hs; simpl; [exact Hs|].
  apply IH. destruct Hs as (env & Hq & Hp).
  destruct (step_queue false ev env s Hq) as (env' & Hq' & Hp').
  exists env'. split; [exact Hq' | congruence].
Qed.

(** X8. Two display refreshes with no scroll in between: whatever the first
    one did, the second writes no record and adds only its frame request,
    leaving the queue as it found it. *)
Theorem second_frame_without_scroll_is_idle (reduced : bool) (env : closure) (st : state) :
  raf_queue st = [env] ->
  PrimFloat.is_nan (scrollY st) = false ->
  dom_elems (App.step reduced (App.step reduced st App.Frame) App.Frame)
  = dom_elems (App.step reduced st App.Frame)
  /\ trace (App.step reduced (App.step reduced st App.Frame) App.Frame)
     = (trace (App.step reduced st App.Frame) ++ [RequestFrame])%list
  /\ raf_queue (App.step reduced (App.step reduced st App.Frame) App.Frame)
     = raf_queue (App.step reduced st App.Frame).
Proof.
  intros Hq Hnan.
  destruct (frame_queue reduced env st Hq) as (env' & Hq' & _ & Hy & [Hb|Hb]);
    [|congruence].
  set (s1 := App.step reduced st App.Frame) in *.
  change (App.step reduced s1 App.Frame) with (App.animation_frame s1).
  unfold App.animation_frame. rewrite Hq'. simpl.
  unfold App.updateParallax, JS.strict_neq. simpl. rewrite Hy, Hb. simpl. auto.
Qed.

End ParallaxMore.

(** ** Further properties: what happens after startup *)

Section Runtime.
Context `{Platform}.
Variable reduced : bool.

Lemma on_entry_writes (en : entry) (s : state) :
  rtc (write_of reduced) s (App.on_entry reduced en s).
Proof.
  unfold App.on_entry.
  destruct (element_querySelector s (target en) _) as [c|]; [|apply rtc_refl].
  destruct (isIntersecting en); [|apply rtc_refl].
  eapply rtc_r; [eapply rtc_r|]; [|apply write_class|apply write_unobserve].
  destruct reduced eqn:Hred; [|apply rtc_refl].
  apply rtc_once, write_transition. reflexivity.
Qed.

Lemma observer_callback_writes (entries : list entry) (s : state) :
  rtc (write_of reduced) s (App.observer_callback reduced entries s).
Proof.
  unfold App.observer_callback. revert s.
  induction entries as [|en entries IH]; intros s; simpl; [apply rtc_refl|].
  etransitivity; [apply on_entry_writes | apply IH].
Qed.

Lemma update_elements_writes (y : float) (els : list node) (s : state) :
  rtc (write_of reduced) s (foldl (fun s el => App.update_element y el s) s els).
Proof.
  revert s. induction els as [|el els IH]; intros s; simpl; [apply rtc_refl|].
  eapply rtc_l; [|apply IH]. apply write_transform.
Qed.

Lemma updateParallax_writes (env : closure) (s : state) :
  rtc (write_of reduced) s (App.updateParallax env s).
Proof.
  unfold App.updateParallax. destruct (JS.strict_neq _ _).
  - eapply rtc_r; [apply update_elements_writes | apply write_request].
  - apply rtc_once, write_request.
Qed.

Lemma step_writes (ev : App.event) (s : state) :
  rtc (write_of reduced) s (App.step reduced s ev).
Proof.
  destruct ev as [y| |entries]; simpl.
  - apply rtc_once, write_scroll.
  - unfold App.animation_frame. eapply rtc_l; [apply write_dequeue|].
    generalize (with_raf_queue [] s). induction (raf_queue s) as [|cb cbs IH];
      intros u; simpl; [apply rtc_refl|].
    etransitivity; [apply updateParallax_writes | apply IH].
  - apply observer_callback_writes.
Qed.

Lemma run_writes (evs : list App.event) (s : state) :
  rtc (write_of reduced) s (App.run reduced evs s).
Proof.
  unfold App.run. revert s.
  induction evs as [|ev evs IH]; intros s; simpl; [apply rtc_refl|].
  etransitivity; [apply step_writes | apply IH].
Qed.

Lemma writes_trace (s s' : state) :
  rtc (write_of reduced) s s' ->
  exists added, trace s' = (trace s ++ added)%list
                /\ Forall (runtime_effect reduced) added.
Proof.
  induction 1 as [s|s s1 s2 Hw _ (added & Htr & Hall)].
  - exists []. rewrite app_nil_r. auto.
  - destruct Hw; simpl in Htr;
      try (exists added; split; [exact Htr | exact Hall]);
      (eexists (_ :: added); split;
       [rewrite Htr, <- app_assoc; reflexivity
       | constructor; [simpl; auto | exact Hall]]).
Qed.

(** X9. After startup the scripts are quiet: over any scrolls, frames and
    observer batches the trace only grows, and only by transform writes,
    frame requests, additions of the class ["is-visible"], [unobserve] calls
    and, under reduced motion only, assignments of ["none"] to a transition.
    Nothing is logged, no content is replaced, no observer is created and no
    element is observed. *)
Theorem runtime_trace_only_grows (evs : list App.event) (st : state) :
  exists added,
    trace (App.run reduced evs st) = (trace st ++ added)%list
    /\ Forall (runtime_effect reduced) added.
Proof. apply writes_trace, run_writes. Qed.

Lemma non_intersecting_entry (en : entry) (s : state) :
  isIntersecting en = false -> App.on_entry reduced en s = s.
Proof.
  intros Hni. unfold App.on_entry. rewrite Hni.
  destruct (element_querySelector s (target en) _); reflexivity.
Qed.

(** X10. A batch in which no entry intersects is ignored altogether: the
    state after the callback, trace included, is the state before. *)
Theorem non_intersecting_batch_ignored (entries : list entry) (st : state) :
  Forall (fun en => isIntersecting en = false) entries ->
  App.observer_callback reduced entries st = st.
Proof.
  unfold App.observer_callback. revert st.
  induction entries as [|en entries IH]; intros st Hall; simpl; [reflexivity|].
  apply Forall_cons in Hall as [Hen Hall].
  rewrite (non_intersecting_entry en st Hen). apply IH, Hall.
Qed.

Lemma on_entry_keeps_other (t : node) (en : entry) (s : state) :
  target en <> t -> keeps t s (App.on_entry reduced en s).
Proof.
  intros Hne. unfold App.on_entry.
  destruct (element_querySelector s (target en) _) as [c|]; [|apply keeps_refl].
  destruct (isIntersecting en); [|apply keeps_refl].
  set (s1 := if reduced then set_style_transition c "none" s else s).
  apply keeps_trans with (b := classList_add (target en) "is-visible" s1).
  - apply keeps_trans with (b := s1).
    + subst s1. destruct reduced; [|apply keeps_refl].
      apply (keeps_write t (put_transition "none") c (SetTransition c "none"));
        try reflexivity; auto.
    + apply (keeps_write t (put_class "is-visible") (target en)
               (AddClass (target en) "is-visible")); try reflexivity; auto.
      intros Heq. contradiction.
  - apply (keeps_no_write t (Unobserve (target en))); try reflexivity; [|simpl; auto].
    simpl. intros Hin. apply elem_of_unobserve. auto.
Qed.

(** X11. The callback reveals only targets of intersecting entries: a
    section for which the batch holds no intersecting entry keeps its
    classes, stays a target if it was one, and gets no [classList.add] and no
    [unobserve] in the trace, whatever the batch does to other sections. *)
Theorem callback_reveals_only_intersecting_targets (entries : list entry)
    (st : state) (x : node) :
  Forall (fun en => target en = x -> isIntersecting en = false) entries ->
  classList <$> (dom_elems (App.observer_callback reduced entries st) !! x)
  = classList <$> (dom_elems st !! x)
  /\ (x ∈ observed st -> x ∈ observed (App.observer_callback reduced entries st))
  /\ (forall c, AddClass x c ∈ trace (App.observer_callback reduced entries st) ->
                AddClass x c ∈ trace st)
  /\ (Unobserve x ∈ trace (App.observer_callback reduced entries st) ->
      Unobserve x ∈ trace st).
Proof.
  intros Hall.
  assert (Hk : keeps x st (App.observer_callback reduced entries st)).
  { unfold App.observer_callback. revert st.
    induction entries as [|en entries IH]; intros st; simpl; [apply keeps_refl|].
    apply Forall_cons in Hall as [Hen Hall'].
    eapply keeps_trans; [|apply IH, Hall'].
    destruct (decide (target en = x)) as [Heq|Hne].
    - rewrite (non_intersecting_entry en st (Hen Heq)). apply keeps_refl.
    - apply on_entry_keeps_other, Hne. }
  destruct Hk as (Hc & Ho & Ht). split; [exact Hc|]. split; [exact Ho|]. split.
  - intros c Hin. apply Ht; [exact Hin | reflexivity].
  - intros Hin. apply Ht; [exact Hin | reflexivity].
Qed.

(** X12. Over any scrolls, frames and observer batches the page only grows:
    the tree and every [data-] attribute stay, no element loses a class, the
    only class an element can gain is ["is-visible"], and no element becomes
    an observation target. *)
Theorem page_only_gains_visibility (evs : list App.event) (st : state) :
  dom_tree (App.run reduced evs st) = dom_tree st
  /\ (forall el name, dataset (App.run reduced evs st) el name = dataset st el name)
  /\ (forall el c, has_class st el c -> has_class (App.run reduced evs st) el c)
  /\ (forall el c, has_class (App.run reduced evs st) el c ->
                   has_class st el c \/ c = "is-visible")
  /\ (forall x, x ∈ observed (App.run reduced evs st) -> x ∈ observed st).
Proof.
  pose proof (run_evolves reduced evs st) as Hev.
  split; [apply Hev|]. split; [intros el name; apply evolves_dataset, Hev|].
  destruct Hev as (_ & He & Ho). split; [|split; [|exact Ho]].
  - intros el c (e & Hel & Hc). specialize (He el). rewrite Hel in He.
    destruct (dom_elems (App.run reduced evs st) !! el) as [e'|] eqn:He';
      [|contradiction].
    exists e'. split; [exact He'|]. destruct He as (_ & _ & _ & Hm & _). auto.
  - intros el c (e' & Hel & Hc). specialize (He el). rewrite Hel in He.
    destruct (dom_elems st !! el) as [e|] eqn:He0; [|contradiction].
    destruct He as (_ & _ & _ & _ & Hv & _).
    destruct (Hv c Hc) as [Hc'|Hc']; [|auto]. left. exists e. auto.
Qed.

End Runtime.

Section FullMotion.
Context `{Platform}.

Lemma writes_keep_transitions (s s' : state) :
  rtc (write_of false) s s' ->
  forall el, style_transition <$> (dom_elems s' !! el)
             = style_transition <$> (dom_elems s !! el).
Proof.
  induction 1 as [s|s s1 s2 Hw _ IH]; intros el; [reflexivity|].
  rewrite IH. destruct Hw; simpl; try reflexivity; try discriminate;
    (rewrite lookup_alter; case_decide; [|reflexivity];
     subst; destruct (dom_elems s !! _); reflexivity).
Qed.

(** X13. Without reduced motion no transition is ever written: over any
    scrolls, frames and observer batches every element keeps the transition
    it had, so a reveal is animated by whatever the style sheet says. *)
Theorem full_motion_keeps_transitions (evs : list App.event) (st : state) (el : node) :
  style_transition <$> (dom_elems (App.run false evs st) !! el)
  = style_transition <$> (dom_elems st !! el).
Proof. apply writes_keep_transitions, run_writes. Qed.

End FullMotion.

(** ** Further properties: the clamp *)

Section Clamp.

Lemma not_nan_Prim2SF (x : float) : PrimFloat.is_nan x = false -> Prim2SF x <> S754_nan.
Proof.
  unfold PrimFloat.is_nan. rewrite FloatAxioms.eqb_spec. intros Hx Hsf.
  rewrite Hsf in Hx. discriminate Hx.
Qed.

Lemma SFcompare_antisym (a b : spec_float) :
  SFcompare b a = option_map CompOpp (SFcompare a b).
Proof.
  destruct a as [sa|sa| |sa ma ea], b as [sb|sb| |sb mb eb]; simpl;
    try reflexivity;
    try (destruct sa; reflexivity); try (destruct sb; reflexivity);
    try (destruct sa, sb; reflexivity).
  assert (Hm : Pos.compare_cont Eq mb ma = CompOpp (Pos.compare_cont Eq ma mb)).
  { rewrite (Pos.compare_cont_antisym ma mb Eq). reflexivity. }
  destruct sa, sb; simpl; try reflexivity;
    rewrite (Z.compare_antisym ea eb); destruct (ea ?= eb)%Z; simpl; try reflexivity;
    rewrite Hm; try rewrite CompOpp_involutive; reflexivity.
Qed.

Lemma ltb_false_leb (a b : float) :
  PrimFloat.is_nan a = false -> PrimFloat.is_nan b = false ->
  (a <? b)%float = false -> (b <=? a)%float = true.
Proof.
  intros Ha Hb. rewrite FloatAxioms.ltb_spec, FloatAxioms.leb_spec.
  unfold SFltb, SFleb. rewrite (SFcompare_antisym (Prim2SF a) (Prim2SF b)).
  pose proof (not_nan_Prim2SF a Ha) as Ha'. pose proof (not_nan_Prim2SF b Hb) as Hb'.
  destruct (SFcompare (Prim2SF a) (Prim2SF b)) as [[| |]|] eqn:Hc; simpl;
    try reflexivity; try discriminate.
  intros _. destruct (Prim2SF a), (Prim2SF b); simpl in Hc; congruence.
Qed.

Lemma ltb_true_leb (a b : float) : (a <? b)%float = true -> (a <=? b)%float = true.
Proof.
  rewrite FloatAxioms.ltb_spec, FloatAxioms.leb_spec. unfold SFltb, SFleb.
  destruct (SFcompare (Prim2SF a) (Prim2SF b)) as [[| |]|]; auto.
Qed.

Lemma not_below_infinity (s : float) :
  PrimFloat.is_nan s = false -> (s <? PrimFloat.infinity)%float = false ->
  (0.3 <? s)%float = true /\ (0 <? s)%float = true.
Proof.
  intros Hs. pose proof (not_nan_Prim2SF s Hs) as Hs'.
  rewrite !FloatAxioms.ltb_spec.
  destruct (Prim2SF s) as [sg|[|]| |sg m e]; try congruence;
    try (vm_compute; discriminate); try (vm_compute; auto).
Qed.

Lemma Math_max_zero (s : float) :
  PrimFloat.is_nan s = false ->
  JS.Math_max 0 s = if (0 <? s)%float then s else 0%float.
Proof.
  intros Hs. unfold JS.Math_max, JS.max_loop.
  change (PrimFloat.is_nan 0) with false.
  change (JS.is_pos_zero 0 && JS.is_neg_zero PrimFloat.neg_infinity) with false.
  change (PrimFloat.neg_infinity <? 0)%float with true. cbv iota.
  rewrite Hs. change (JS.is_neg_zero 0) with false. rewrite andb_false_r. reflexivity.
Qed.

Lemma Math_min_cap (m : float) :
  PrimFloat.is_nan m = false ->
  JS.Math_min m 0.3
  = if (m <? PrimFloat.infinity)%float
    then (if (0.3 <? m)%float then 0.3%float else m)
    else 0.3%float.
Proof.
  intros Hm. unfold JS.Math_min, JS.min_loop. rewrite Hm.
  change (JS.is_pos_zero PrimFloat.infinity) with false. rewrite andb_false_r.
  destruct (m <? PrimFloat.infinity)%float.
  - change (PrimFloat.is_nan 0.3) with false.
    change (JS.is_neg_zero 0.3) with false. reflexivity.
  - reflexivity.
Qed.

(** X14. The clamp of [updateParallax] on a strength that is a number: a
    strength above 0.3 (infinity included) gives 0.3, a strength in
    (0, 0.3] is kept, anything else (negative numbers and both zeros) gives
    +0; the result always lies between 0 and 0.3. *)
Theorem clamp_within_bounds (s : float) :
  PrimFloat.is_nan s = false ->
  JS.Math_min (JS.Math_max 0 s) App.PARALLAX_MAX_STRENGTH
  = (if (0 <? s)%float then (if (0.3 <? s)%float then 0.3%float else s) else 0%float)
  /\ (0 <=? JS.Math_min (JS.Math_max 0 s) App.PARALLAX_MAX_STRENGTH)%float = true
  /\ (JS.Math_min (JS.Math_max 0 s) App.PARALLAX_MAX_STRENGTH <=? 0.3)%float = true.
Proof.
  intros Hs. change App.PARALLAX_MAX_STRENGTH with 0.3%float.
  rewrite (Math_max_zero s Hs).
  destruct (0 <? s)%float eqn:Hpos.
  - rewrite (Math_min_cap s Hs).
    destruct (s <? PrimFloat.infinity)%float eqn:Hinf.
    + destruct (0.3 <? s)%float eqn:Hcap.
      * repeat split; reflexivity.
      * split; [reflexivity|]. split; [apply ltb_true_leb, Hpos|].
        apply ltb_false_leb; [reflexivity | exact Hs | exact Hcap].
    + destruct (not_below_infinity s Hs Hinf) as [-> _]. repeat split; reflexivity.
  - repeat split; reflexivity.
Qed.

End Clamp.

(** ** Further properties: the two files *)

Section TwoFiles.
Context `{Platform}.

Lemma chapters_are_sections (st : state) :
  Forall (fun i => el_matches st (ClassSel "gw-chapter") i
                   = el_matches st (TypeSel "section") i)
         (preorder (dom_tree st)) ->
  document_querySelectorAll st (ClassSel "gw-chapter")
  = document_querySelectorAll st (TypeSel "section").
Proof.
  unfold document_querySelectorAll.
  induction (preorder (dom_tree st)) as [|i l IH]; intros Hsame; [reflexivity|].
  apply Forall_cons in Hsame as [Hi Hl]. simpl. rewrite Hi, (IH Hl). reflexivity.
Qed.

(** X15. [src/unnamed/part_000] as a whole against [src/app.js]: its loader,
    its parallax controller and its handling of every later event are the
    same functions of the state; and when, in the document as the loader
    leaves it, the ['.gw-chapter'] elements are exactly the ['section']
    elements, its [window.onload] produces the same state, trace included. *)
Theorem part000_agrees_on_chapter_pages (reduced : bool) (st : state) :
  Forall (fun i => el_matches (App.load360ViewerScript st) (ClassSel "gw-chapter") i
                   = el_matches (App.load360ViewerScript st) (TypeSel "section") i)
         (preorder (dom_tree (App.load360ViewerScript st))) ->
  Part000.onload reduced st = App.onload reduced st
  /\ (forall s, Part000.load360ViewerScript s = App.load360ViewerScript s)
  /\ (forall s, Part000.setupParallax reduced s = App.setupParallax reduced s)
  /\ (forall evs s, Part000.run reduced evs s = App.run reduced evs s).
Proof.
  intros Hsame. split; [|repeat split].
  unfold Part000.onload, App.onload.
  change (Part000.load360ViewerScript st) with (App.load360ViewerScript st).
  unfold Part000.setupIntersectionObserver, App.setupIntersectionObserver.
  rewrite (chapters_are_sections _ Hsame). reflexivity.
Qed.

End TwoFiles.

(** ** Further properties: order does not matter *)

Section Independence.
Context `{Platform}.
Variable reduced : bool.

Lemma same_page_sym (s s' : state) : same_page s s' -> same_page s' s.
Proof. unfold same_page. intuition. Qed.

Lemma put_transition_put_class (v c : string) (e : element) :
  put_transition v (put_class c e) = put_class c (put_transition v e).
Proof. reflexivity. Qed.

Lemma put_transform_put_class (v c : string) (e : element) :
  put_transform v (put_class c e) = put_class c (put_transform v e).
Proof. reflexivity. Qed.

Lemma put_transform_put_transition (v w : string) (e : element) :
  put_transform v (put_transition w e) = put_transition w (put_transform v e).
Proof. reflexivity. Qed.

Lemma unobserve_comm (a b : node) (l : list node) :
  List.filter (fun y => negb (Nat.eqb y a)) (List.filter (fun y => negb (Nat.eqb y b)) l)
  = List.filter (fun y => negb (Nat.eqb y b)) (List.filter (fun y => negb (Nat.eqb y a)) l).
Proof.
  induction l as [|x l IH]; [reflexivity|]. simpl.
  destruct (negb (Nat.eqb x b)) eqn:Hb, (negb (Nat.eqb x a)) eqn:Ha; simpl;
    rewrite ?Ha, ?Hb, IH; reflexivity.
Qed.

(** [on_entry] in a state that evolved from [s], with the wrapper looked up
    in [s]. *)
Lemma on_entry_evolved (en : entry) (s s' : state) :
  evolves s s' ->
  App.on_entry reduced en s'
  = match element_querySelector s (target en) (ClassSel "section-content") with
    | Some c =>
        if isIntersecting en then
          unobserve (target en)
            (classList_add (target en) "is-visible"
               (if reduced then set_style_transition c "none" s' else s'))
        else s'
    | None => s'
    end.
Proof.
  intros Hev. unfold App.on_entry. rewrite (evolves_wrapper s s' _ Hev). reflexivity.
Qed.

Lemma respects_on_entry (en : entry) : respects (App.on_entry reduced en).
Proof.
  intros [t m y o q tr] [t' m' y' o' q' tr'] (Ht & Hm & Hy & Ho & Hq).
  simpl in *. subst. unfold App.on_entry.
  change (element_querySelector (State t' m' y' o' q' tr) (target en)
            (ClassSel "section-content"))
    with (element_querySelector (State t' m' y' o' q' tr') (target en)
            (ClassSel "section-content")).
  destruct (element_querySelector _ _ _); [|unfold same_page; simpl; auto].
  destruct (isIntersecting en); [|unfold same_page; simpl; auto].
  destruct reduced; unfold same_page; simpl; auto.
Qed.

Lemma respects_update_element (y : float) (el : node) :
  respects (App.update_element y el).
Proof.
  intros [t m y0 o q tr] [t' m' y' o' q' tr'] (Ht & Hm & Hy & Ho & Hq).
  simpl in *. subst. unfold same_page. simpl. auto.
Qed.

Lemma respects_requestAnimationFrame (cb : closure) : respects (requestAnimationFrame cb).
Proof.
  intros s s' (Ht & Hm & Hy & Ho & Hq). unfold same_page. simpl.
  rewrite Ht, Hm, Hy, Ho, Hq. auto.
Qed.

Lemma respects_foldl {A : Type} (f : state -> A -> state) (l : list A) :
  (forall a, respects (fun s => f s a)) -> respects (fun s => foldl f s l).
Proof.
  intros Hf. induction l as [|a l IH]; intros s s' Hs; simpl; [exact Hs|].
  apply IH, (Hf a), Hs.
Qed.

Lemma respects_updateParallax (env : closure) : respects (App.updateParallax env).
Proof.
  intros s s' Hs. unfold App.updateParallax.
  assert (Hy : scrollY s = scrollY s') by apply Hs. rewrite <- Hy.
  destruct (JS.strict_neq _ _); [|apply respects_requestAnimationFrame, Hs].
  apply respects_requestAnimationFrame.
  apply (respects_foldl (fun u el => App.update_element (scrollY s) el u));
    [|exact Hs].
  intros a. apply respects_update_element.
Qed.

Lemma respects_animation_frame : respects App.animation_frame.
Proof.
  intros s s' Hs. unfold App.animation_frame.
  assert (Hq : raf_queue s = raf_queue s') by apply Hs. rewrite <- Hq.
  apply (respects_foldl (fun s cb => App.updateParallax cb s)).
  - intros cb. apply respects_updateParallax.
  - destruct Hs as (Ht & Hm & Hy & Ho & _). unfold same_page. simpl. auto.
Qed.

(** A step that commutes with every step of a fold commutes with the fold. *)
Lemma commute_foldl {A : Type} (g : state -> state) (f : state -> A -> state)
    (l : list A) :
  (forall a, respects (fun s => f s a)) ->
  (forall a, commute (fun s => f s a) g) ->
  commute (fun s => foldl f s l) g.
Proof.
  intros Hf Hc. induction l as [|a l IH]; intros s; simpl; [apply same_page_refl|].
  eapply same_page_trans; [apply IH|].
  apply (respects_foldl f l Hf), (Hc a).
Qed.

Lemma on_entry_unchanged_fields (en : entry) (s : state) :
  dom_tree (App.on_entry reduced en s) = dom_tree s
  /\ scrollY (App.on_entry reduced en s) = scrollY s
  /\ raf_queue (App.on_entry reduced en s) = raf_queue s.
Proof.
  unfold App.on_entry. destruct (element_querySelector _ _ _); [|auto].
  destruct (isIntersecting en); [|auto]. destruct reduced; simpl; auto.
Qed.

Lemma commute_transform_on_entry (en : entry) (el : node) (v : string) :
  commute (set_style_transform el v) (App.on_entry reduced en).
Proof.
  intros s. destruct en as [t b].
  rewrite (on_entry_evolved (Entry t b) s (set_style_transform el v s))
    by apply set_style_transform_evolves.
  rewrite (on_entry_evolved (Entry t b) s s) by apply evolves_refl. simpl.
  destruct (element_querySelector s t _) as [c|]; [|apply same_page_refl].
  destruct b; [|apply same_page_refl].
  unfold same_page. simpl. split; [destruct reduced; reflexivity|].
  split; [|destruct reduced; simpl; auto].
  apply map_eq. intros i. destruct reduced; simpl;
    rewrite !lookup_alter; repeat case_decide; subst; try congruence;
    destruct (dom_elems s !! _); reflexivity.
Qed.

Lemma commute_update_on_entry (en : entry) (y : float) (el : node) :
  commute (App.update_element y el) (App.on_entry reduced en).
Proof.
  intros s. unfold App.update_element at 2.
  rewrite (evolves_dataset s (App.on_entry reduced en s) el "parallax")
    by apply on_entry_evolves.
  apply commute_transform_on_entry.
Qed.

Lemma commute_request_on_entry (en : entry) (cb : closure) :
  commute (requestAnimationFrame cb) (App.on_entry reduced en).
Proof.
  intros s.
  rewrite (on_entry_evolved en s (requestAnimationFrame cb s))
    by apply requestAnimationFrame_evolves.
  rewrite (on_entry_evolved en s s) by apply evolves_refl.
  destruct (element_querySelector s (target en) _) as [c|]; [|apply same_page_refl].
  destruct (isIntersecting en); [|apply same_page_refl].
  destruct reduced; unfold same_page; simpl; auto.
Qed.

Lemma commute_updateParallax_on_entry (en : entry) (env : closure) :
  commute (App.updateParallax env) (App.on_entry reduced en).
Proof.
  intros s. unfold App.updateParallax.
  destruct (on_entry_unchanged_fields en s) as (_ & -> & _).
  destruct (JS.strict_neq _ _); [|apply commute_request_on_entry].
  eapply same_page_trans; [apply commute_request_on_entry|].
  apply respects_requestAnimationFrame.
  apply (commute_foldl (App.on_entry reduced en)
           (fun u el => App.update_element (scrollY s) el u)).
  - intros a. apply respects_update_element.
  - intros a. apply commute_update_on_entry.
Qed.

Lemma commute_frame_on_entry (en : entry) :
  commute App.animation_frame (App.on_entry reduced en).
Proof.
  intros s. unfold App.animation_frame.
  destruct (on_entry_unchanged_fields en s) as (_ & _ & ->).
  eapply same_page_trans.
  - apply (commute_foldl (App.on_entry reduced en)
             (fun s cb => App.updateParallax cb s)).
    + intros cb. apply respects_updateParallax.
    + intros cb. apply commute_updateParallax_on_entry.
  - apply (respects_foldl (fun s cb => App.updateParallax cb s)).
    + intros cb. apply respects_updateParallax.
    + rewrite (on_entry_evolved en s (with_raf_queue [] s)).
      * rewrite (on_entry_evolved en s s) by apply evolves_refl.
        destruct (element_querySelector s (target en) _) as [c|];
          [|apply same_page_refl].
        destruct (isIntersecting en); [|apply same_page_refl].
        destruct reduced; unfold same_page; simpl; auto.
      * split; [reflexivity|]. split; [|auto].
        intros i. simpl. destruct (dom_elems s !! i); [apply grows_refl | exact I].
Qed.

(** X16. The two controllers do not interfere: a display refresh and an
    observer batch can be handled in either order with the same resulting
    tree, element records, targets, scroll position and frame queue (only
    the order of the writes in the trace differs). *)
Theorem frame_and_batch_commute (entries : list entry) (st : state) :
  same_page
    (App.step reduced (App.step reduced st (App.Intersection entries)) App.Frame)
    (App.step reduced (App.step reduced st App.Frame) (App.Intersection entries)).
Proof.
  simpl. unfold App.observer_callback.
  apply (commute_foldl App.animation_frame (fun s en => App.on_entry reduced en s)).
  - intros en. apply respects_on_entry.
  - intros en s. apply same_page_sym, commute_frame_on_entry.
Qed.

Lemma commute_on_entry_on_entry (a b : entry) :
  commute (App.on_entry reduced a) (App.on_entry reduced b).
Proof.
  intros s. destruct a as [ta ia], b as [tb ib].
  rewrite (on_entry_evolved (Entry tb ib) s (App.on_entry reduced (Entry ta ia) s))
    by apply on_entry_evolves.
  rewrite (on_entry_evolved (Entry ta ia) s (App.on_entry reduced (Entry tb ib) s))
    by apply on_entry_evolves.
  rewrite !(on_entry_evolved _ s s) by apply evolves_refl. simpl.
  destruct (element_querySelector s ta _) as [ca|]; [|apply same_page_refl].
  destruct ia; [|apply same_page_refl].
  destruct (element_querySelector s tb _) as [cb|]; [|apply same_page_refl].
  destruct ib; [|apply same_page_refl].
  unfold same_page. simpl. split; [destruct reduced; reflexivity|].
  split; [|destruct reduced; simpl; rewrite unobserve_comm; auto].
  apply map_eq. intros i. destruct reduced; simpl;
    rewrite !lookup_alter; repeat case_decide; subst; try congruence;
    destruct (dom_elems s !! _); reflexivity.
Qed.

(** X17. The order of the entries within a batch does not matter: two
    batches that are permutations of each other leave the same tree, element
    records, targets, scroll position and frame queue. *)
Theorem batch_order_is_irrelevant (entries entries' : list entry) (st : state) :
  entries ≡ₚ entries' ->
  same_page (App.observer_callback reduced entries st)
            (App.observer_callback reduced entries' st).
Proof.
  intros Hperm. unfold App.observer_callback. revert st.
  induction Hperm as [|x l l' _ IH|x y l|l l' l'' _ IH1 _ IH2]; intros st; simpl.
  - apply same_page_refl.
  - apply IH.
  - apply (respects_foldl (fun s en => App.on_entry reduced en s)).
    + intros en. apply respects_on_entry.
    + apply commute_on_entry_on_entry.
  - eapply same_page_trans; [apply IH1 | apply IH2].
Qed.

End Independence.

(** ** Further properties: from page load to the first translated frame *)

Section EndToEnd.
Context `{Platform}.

Lemma load_keeps_queue_and_scroll (st : state) :
  raf_queue (App.load360ViewerScript st) = raf_queue st
  /\ scrollY (App.load360ViewerScript st) = scrollY st.
Proof.
  unfold App.load360ViewerScript. destruct (document_querySelector st _); [|auto].
  cbv zeta. unfold set_innerHTML. destruct (parse_fragment _ _). auto.
Qed.

(** The state [onload] hands to the platform when motion is not reduced. *)
Lemma onload_full_motion (st : state) :
  raf_queue (App.onload false st)
  = (raf_queue st
     ++ [Closure (document_querySelectorAll (App.load360ViewerScript st)
                    (HasAttrSel "data-parallax"))
                 (scrollY st)])%list
  /\ dom_elems (App.onload false st) = dom_elems (App.load360ViewerScript st)
  /\ dom_tree (App.onload false st) = dom_tree (App.load360ViewerScript st).
Proof.
  destruct (load_keeps_queue_and_scroll st) as [Hq1 Hy1].
  destruct (observe_all_page
              (document_querySelectorAll (App.load360ViewerScript st) (TypeSel "section"))
              (new_IntersectionObserver App.observerRootMargin 0
                 (App.load360ViewerScript st))) as (Ht & He & Hy & Hq).
  change (foldl _ _ _) with (App.setupIntersectionObserver (App.load360ViewerScript st))
    in Ht, He, Hy, Hq.
  simpl in Ht, He, Hy, Hq.
  unfold App.onload, App.setupParallax. simpl.
  rewrite Hq, Hq1, Hy, Hy1, He, Ht. split; [|auto].
  unfold document_querySelectorAll, el_matches. rewrite Ht, He. reflexivity.
Qed.

Lemma has_attribute_dataset (st : state) (el : node) :
  el ∈ document_querySelectorAll st (HasAttrSel "data-parallax") ->
  exists a, dataset st el "parallax" = Some a.
Proof.
  unfold document_querySelectorAll. intros Hin.
  apply list_elem_of_In, filter_In in Hin as [_ Hm].
  unfold el_matches in Hm. unfold dataset.
  destruct (dom_elems st !! el) as [e|]; [|discriminate].
  simpl in Hm. apply bool_decide_eq_true in Hm as [a Ha]. exists a. exact Ha.
Qed.

Lemma finite_not_nan_strength (y s : float) :
  PrimFloat.is_finite (y * JS.Math_min (JS.Math_max 0 s) 0.3 * -1)%float = true ->
  PrimFloat.is_nan s = false.
Proof.
  intros Hfin. destruct (PrimFloat.is_nan s) eqn:Hs; [|reflexivity].
  pose proof (nan_offset y s Hs) as Hsf.
  unfold PrimFloat.is_finite, PrimFloat.is_nan in Hfin.
  rewrite FloatAxioms.eqb_spec, Hsf in Hfin. discriminate Hfin.
Qed.

(** X18. From page load to the first translated frame, without reduced
    motion: after [onload], a scroll to a position [y] that differs from the
    position at load time and one display refresh, every [data-parallax]
    element of the document as the loader left it, whose offset
    [y * min(max(0, s), 0.3) * -1] is a finite number ([s] being [parseFloat]
    of its attribute, which is then a number), has been assigned the
    transform [translateY(<offset>px)]: the assignment is in the trace and it
    is the last one made to the element. *)
Theorem scroll_then_frame_translates (t : tree) (elems : gmap node element)
    (y0 y : float) (el : node) (a : string) :
  JS.strict_neq y y0 = true ->
  el ∈ document_querySelectorAll (App.load360ViewerScript (initial_state t elems y0))
                                 (HasAttrSel "data-parallax") ->
  dataset (App.load360ViewerScript (initial_state t elems y0)) el "parallax" = Some a ->
  PrimFloat.is_finite
    (y * JS.Math_min (JS.Math_max 0 (parseFloat a)) 0.3 * -1)%float = true ->
  PrimFloat.is_nan (parseFloat a) = false
  /\ (exists e,
        dom_elems (App.run false [App.Scroll y; App.Frame]
                     (App.onload false (initial_state t elems y0))) !! el = Some e
        /\ style_transform e
           = Some ("translateY("
                   ++ JS.Number_toString shortest_digits
                        (y * JS.Math_min (JS.Math_max 0 (parseFloat a)) 0.3 * -1)%float
                   ++ "px)"))
  /\ SetTransform el
       ("translateY("
        ++ JS.Number_toString shortest_digits
             (y * JS.Math_min (JS.Math_max 0 (parseFloat a)) 0.3 * -1)%float
        ++ "px)")
     ∈ trace (App.run false [App.Scroll y; App.Frame]
                (App.onload false (initial_state t elems y0))).
Proof.
  intros Hneq Hin Ha Hfin. set (st0 := initial_state t elems y0) in *.
  split; [exact (finite_not_nan_strength _ _ Hfin)|].
  destruct (onload_full_motion st0) as (Hq & He & _).
  change (raf_queue st0) with (@nil closure) in Hq.
  change (scrollY st0) with y0 in Hq. rewrite app_nil_l in Hq.
  remember (App.onload false st0) as s3 eqn:Hs3. clear Hs3.
  pose (u := with_raf_queue [] (with_scrollY y s3)).
  assert (Hu : dom_elems u = dom_elems (App.load360ViewerScript st0)) by exact He.
  assert (Hsome : is_Some (dom_elems u !! el)).
  { rewrite Hu. unfold dataset in Ha.
    destruct (dom_elems (App.load360ViewerScript st0) !! el); [eauto | discriminate]. }
  assert (Hd : dataset u el "parallax" = Some a).
  { unfold dataset. rewrite Hu. exact Ha. }
  destruct (update_elements_transform y _ u el Hin Hsome) as [(e & Hel & Htf) Htr].
  rewrite Hd in Htf, Htr. simpl in Htf, Htr.
  assert (Hrun : App.run false [App.Scroll y; App.Frame] s3
                 = requestAnimationFrame
                     (Closure (document_querySelectorAll (App.load360ViewerScript st0)
                                 (HasAttrSel "data-parallax")) y)
                     (foldl (fun s el => App.update_element y el s) u
                        (document_querySelectorAll (App.load360ViewerScript st0)
                           (HasAttrSel "data-parallax")))).
  { unfold App.run. simpl. unfold App.animation_frame. simpl. rewrite Hq. simpl.
    unfold App.updateParallax. simpl. rewrite Hneq. reflexivity. }
  rewrite Hrun. split.
  - exists e. split; [exact Hel | exact Htf].
  - simpl. apply elem_of_app. left. exact Htr.
Qed.

End EndToEnd.

(** ** The further properties at the sample page *)

Lemma sample_nodes_distinct : NoDup (preorder Sample.page_tree).
Proof. apply (bool_decide_unpack _). vm_compute. exact I. Qed.

Lemma setup_observes_sections_in_order_witness :
  observed (App.setupIntersectionObserver Sample.page)
  = document_querySelectorAll Sample.page (TypeSel "section").
Proof.
  exact (proj1 (setup_observes_sections_in_order Sample.page sample_nodes_distinct)).
Defined.

Lemma part000_setup_observes_chapters_in_order_witness :
  observed (Part000.setupIntersectionObserver Sample.page)
  = document_querySelectorAll Sample.page (ClassSel "gw-chapter").
Proof.
  exact (proj1 (part000_setup_observes_chapters_in_order Sample.page sample_nodes_distinct)).
Defined.

Lemma load_mount_without_src_witness :
  innerHTML_get (@App.load360ViewerScript Reference.platform Sample.unsourced) 4
  = Some ("<p class=" ++ dquote ++ "text-lg text-indigo-700 font-semibold" ++ dquote
          ++ ">360 Viewer Initialized! (Source: undefined)</p>").
Proof.
  refine (proj2 (proj2 (proj2
            (@load_mount_without_src Reference.platform Sample.unsourced 4 _ _)))
            (Sample.plain "div" ["gw-pano"]) _ _);
    vm_compute; reflexivity.
Defined.

Lemma load_touches_only_mount_content_witness :
  content_replaced 4 [] Sample.page_tree
    (dom_tree (@App.load360ViewerScript Reference.platform Sample.page))
  /\ (forall el e, dom_elems Sample.page !! el = Some e ->
       exists e', dom_elems (@App.load360ViewerScript Reference.platform Sample.page) !! el
                  = Some e'
                  /\ localName e' = localName e /\ classList e' = classList e
                  /\ attributes e' = attributes e
                  /\ style_transition e' = style_transition e
                  /\ style_transform e' = style_transform e
                  /\ (el <> 4 -> e' = e)).
Proof.
  assert (Hq : document_querySelector Sample.page (ClassSel "gw-pano") = Some 4)
    by (vm_compute; reflexivity).
  assert (Hnd : NoDup (preorder (dom_tree Sample.page))) by exact sample_nodes_distinct.
  split.
  - exact (proj1 (@load_touches_only_mount_content Reference.platform Sample.page 4
                    Hq Hnd)).
  - exact (proj1 (proj2 (@load_touches_only_mount_content Reference.platform Sample.page 4
                           Hq Hnd))).
Defined.

Lemma second_frame_without_scroll_is_idle_witness :
  raf_queue (@App.step Reference.platform false
               (@App.step Reference.platform false
                  (with_scrollY 200 (@App.onload Reference.platform false Sample.page))
                  App.Frame) App.Frame)
  = raf_queue (@App.step Reference.platform false
                 (with_scrollY 200 (@App.onload Reference.platform false Sample.page))
                 App.Frame).
Proof.
  refine (proj2 (proj2 (@second_frame_without_scroll_is_idle Reference.platform false
                          (Closure [3] 0)
                          (with_scrollY 200 (@App.onload Reference.platform false Sample.page))
                          _ _)));
    vm_compute; reflexivity.
Defined.

Lemma non_intersecting_batch_ignored_witness :
  App.observer_callback true [Entry 1 false; Entry 3 false] Sample.page = Sample.page.
Proof.
  apply (non_intersecting_batch_ignored true [Entry 1 false; Entry 3 false] Sample.page).
  repeat constructor.
Defined.

Lemma callback_reveals_only_intersecting_targets_witness :
  classList <$> (dom_elems (App.observer_callback true [Entry 1 true] Sample.page) !! 3)
  = classList <$> (dom_elems Sample.page !! 3).
Proof.
  refine (proj1 (callback_reveals_only_intersecting_targets true [Entry 1 true]
                   Sample.page 3 _)).
  constructor; [|constructor]. simpl. intros Heq. discriminate Heq.
Defined.

Lemma clamp_within_bounds_witness :
  JS.Math_min (JS.Math_max 0 5) App.PARALLAX_MAX_STRENGTH
  = (if (0 <? 5)%float then (if (0.3 <? 5)%float then 0.3%float else 5%float)
     else 0%float).
Proof.
  refine (proj1 (clamp_within_bounds 5 _)). reflexivity.
Defined.

Lemma part000_agrees_on_chapter_pages_witness :
  @Part000.onload false Reference.platform Sample.chapters
  = @App.onload Reference.platform false Sample.chapters.
Proof.
  refine (proj1 (@part000_agrees_on_chapter_pages Reference.platform false
                   Sample.chapters _)).
  vm_compute. repeat constructor.
Defined.

Lemma batch_order_is_irrelevant_witness :
  same_page (App.observer_callback true [Entry 1 true; Entry 3 true] Sample.page)
            (App.observer_callback true [Entry 3 true; Entry 1 true] Sample.page).
Proof.
  apply (batch_order_is_irrelevant true [Entry 1 true; Entry 3 true]
           [Entry 3 true; Entry 1 true] Sample.page).
  apply perm_swap.
Defined.

Lemma scroll_then_frame_translates_witness :
  exists e,
    dom_elems (@App.run Reference.platform false [App.Scroll 200; App.Frame]
                 (@App.onload Reference.platform false
                    (initial_state Sample.page_tree Sample.page_elems 0))) !! 3 = Some e
    /\ style_transform e
       = Some ("translateY("
               ++ JS.Number_toString (@shortest_digits Reference.platform)
                    (200 * JS.Math_min (JS.Math_max 0 (@parseFloat Reference.platform "0.5"))
                             0.3 * -1)%float
               ++ "px)").
Proof.
  refine (proj1 (proj2 (@scroll_then_frame_translates Reference.platform Sample.page_tree
                          Sample.page_elems 0 200 3 "0.5" _ _ _ _))).
  - vm_compute. reflexivity.
  - replace (document_querySelectorAll _ _) with [3] by (vm_compute; reflexivity).
    apply list_elem_of_here.
  - vm_compute. reflexivity.
  - vm_compute. reflexivity.
Defined.

Example sample_first_translated_frame :
  style_transform
  <$> (dom_elems (@App.run Reference.platform false [App.Scroll 200; App.Frame]
                    (@App.onload Reference.platform false Sample.page)) !! 3)
  = Some (Some "translateY(-60px)").
Proof. vm_compute. reflexivity. Qed.
